(** * Kuack agent: session manager and execution engine

    A shallow embedding of the two core classes of the agent,
    [Connection] (connection.ts) and [Runtime] (runtime.ts), and the
    properties of them that the specification states.

    Conventions of the embedding.
    - JavaScript exceptions are explicit: a computation ends in a
      [Completion], either [Normal v] or [Throw e].
    - What the host (browser, network, sandboxed module) does is read from
      an explicit record of host behaviour, so that every theorem
      quantifies over all hosts.
    - JavaScript numbers that the code computes with (memory sizes) are
      modelled as exact rationals [Q]; the rounding of IEEE doubles is not
      modelled.  Counters, delays and exit codes are integers [Z]. *)

From Stdlib Require Import ZArith QArith Qminmax Qround String Ascii List Bool Lia Lqa Sorted.
From Stdlib Require Import DecimalString.
From Stdlib.Strings Require Import Byte.
From stdpp Require Import base gmap strings.
Import ListNotations.

Local Open Scope Z_scope.

(** ** JavaScript values that cross the model boundary *)

Module JS.

(** A thrown value.  [ThrownError name msg] is an [Error] object (or a
    subclass: TypeError, SyntaxError, ...), [ThrownValue s] any other
    thrown value, given by its string conversion. *)
Inductive Thrown : Type :=
| ThrownError (name message : string)
| ThrownValue (s : string).

(** [new Error(msg)] *)
Definition Error (msg : string) : Thrown := ThrownError "Error" msg.

(** String conversion of a thrown value, as in a template literal: for an
    Error object this is [Error.prototype.toString]. *)
Definition toString (e : Thrown) : string :=
  match e with
  | ThrownError name msg =>
      if String.eqb name "" then msg
      else if String.eqb msg "" then name
      else name +:+ ": " +:+ msg
  | ThrownValue s => s
  end.

Inductive Completion (A : Type) : Type :=
| Normal (a : A)
| Throw (e : Thrown).
Arguments Normal {A} a.
Arguments Throw {A} e.

(** Truthiness of a string: the empty string is falsy. *)
Definition truthy (s : string) : bool := negb (String.eqb s "").

(** Truthiness of an optional string ([undefined] is falsy). *)
Definition truthy_opt (o : option string) : bool :=
  match o with
  | Some s => truthy s
  | None => false
  end.

(** [s.startsWith(p)] *)
Fixpoint startsWith (p s : string) : bool :=
  match p, s with
  | EmptyString, _ => true
  | String a p', String b s' => if Ascii.eqb a b then startsWith p' s' else false
  | String _ _, EmptyString => false
  end.

(** [s.includes(p)] *)
Fixpoint includes (p s : string) : bool :=
  if startsWith p s then true
  else match s with
       | EmptyString => false
       | String _ s' => includes p s'
       end.

(** [s.slice(n)] for [0 <= n] *)
Fixpoint slice_from (n : nat) (s : string) : string :=
  match n, s with
  | O, _ => s
  | S n', String _ s' => slice_from n' s'
  | S _, EmptyString => EmptyString
  end.

(** [s.replace(/suffix$/, by)]: the replacement happens only when [s] ends
    with [suffix] (which contains no regular-expression operator once
    escaped). *)
Fixpoint replace_suffix (suffix by_ s : string) : string :=
  if String.eqb s suffix then by_
  else match s with
       | EmptyString => EmptyString
       | String c s' => String c (replace_suffix suffix by_ s')
       end.

(** [s.replace(/^prefix/, by)] *)
Definition replace_prefix (prefix by_ s : string) : string :=
  if startsWith prefix s then by_ +:+ slice_from (String.length prefix) s else s.

(** [s.replace(/a/g, b)] for single characters *)
Fixpoint replace_char (a b : ascii) (s : string) : string :=
  match s with
  | EmptyString => EmptyString
  | String c s' => String (if Ascii.eqb c a then b else c) (replace_char a b s')
  end.

End JS.

Import JS.

(** ** The session manager: [Connection] (connection.ts) *)

Module Connection.

(** *** Resource detection *)

(** What the browser exposes to [detectResources].  [None] stands for a
    property that is missing or [undefined]. *)
Record Navigator : Type := {
  hardwareConcurrency : option Z;   (* navigator.hardwareConcurrency *)
  jsHeapSizeLimit : option Z;       (* performance.memory?.jsHeapSizeLimit, bytes *)
  deviceMemory : option Q;          (* navigator.deviceMemory, GB *)
  gpuSupported : bool;              (* detectGPU().supported *)
  gpuAdapterInfo : option string;   (* detectGPU().adapterInfo *)
  browserName : string;             (* getBrowserName() *)
  documentHidden : bool             (* document.hidden *)
}.

Record Labels : Type := {
  label_browser : string;
  label_gpu : bool;
  label_gpuAdapter : string;
  label_throttled : bool
}.

(** The value [detectResources] resolves to.  [cpu] is in millicores (the
    code prints it followed by "m"), [memory] in GiB (printed followed by
    "Gi"). *)
Record Resources : Type := {
  cpu : Z;
  memory : Q;
  gpu : bool;
  labels : Labels
}.

(** [Math.round(x)]: the integer nearest to [x], ties towards +infinity. *)
Definition Math_round (x : Q) : Z := Qfloor (x + (1 # 2)).

Definition Qltb (x y : Q) : bool := negb (Qle_bool y x).

(** Truthiness of a number: zero is falsy. *)
Definition Qtruthy (x : Q) : bool := negb (Qeq_bool x 0).

(** Method 1 (lines 240-267): the JS heap ceiling, in GB rounded to one
    decimal place. *)
Definition memoryFromHeap (nav : Navigator) : option Q :=
  match jsHeapSizeLimit nav with
  | Some limit =>
      if Z.eqb limit 0 then None
      else Some (inject_Z (Math_round ((inject_Z limit / inject_Z (1024 * 1024 * 1024)) * 10)) / 10)%Q
  | None => None
  end.

(** The tiers of method 2 (lines 279-292). *)
Definition deviceMemoryTier (deviceMemory : Q) : Q :=
  if Qle_bool deviceMemory 2 then Qmax (1 # 2) (deviceMemory * (8 # 10))
  else if Qle_bool deviceMemory 4 then 2
  else if Qle_bool deviceMemory 8 then Qmin 4 (Qmax 2 (deviceMemory * (1 # 2)))
  else 4.

(** Method 2 (lines 273-299) runs when method 1 left [memoryGB] falsy. *)
Definition memoryFromDevice (nav : Navigator) (memoryGB : option Q) : option Q :=
  let unset := match memoryGB with
               | Some m => negb (Qtruthy m)
               | None => true
               end in
  if unset then
    match deviceMemory nav with
    | Some dm =>
        if Qtruthy dm && Qltb 0 dm then Some (deviceMemoryTier dm) else memoryGB
    | None => memoryGB
    end
  else memoryGB.

Definition cpu_error : Thrown :=
  Error "Unable to detect CPU cores - hardwareConcurrency not available".

Definition memory_error : Thrown :=
  Error "Unable to detect available memory - memory APIs not available. Please use a modern browser (Chrome/Edge recommended for accurate memory detection via performance.memory).".

(** [detectResources] (lines 214-325).  [detectGPU] catches every error
    of its own, so the only failures are the two explicit throws. *)
Definition detectResources (nav : Navigator) : Completion Resources :=
  match hardwareConcurrency nav with
  | None => Throw cpu_error
  | Some cpuCores =>
      if Z.eqb cpuCores 0 || Z.ltb cpuCores 1 then Throw cpu_error
      else
        let memoryGB := memoryFromDevice nav (memoryFromHeap nav) in
        match memoryGB with
        | None => Throw memory_error
        | Some m =>
            if negb (Qtruthy m) || Qltb m (1 # 10) then Throw memory_error
            else Normal {| cpu := cpuCores * 1000;
                           memory := m;
                           gpu := gpuSupported nav;
                           labels := {| label_browser := browserName nav;
                                        label_gpu := gpuSupported nav;
                                        label_gpuAdapter :=
                                          match gpuAdapterInfo nav with
                                          | Some i => if truthy i then i else "unknown"
                                          | None => "unknown"
                                          end;
                                        label_throttled := documentHidden nav |} |}
        end
  end.

(** *** Identifiers *)

(** The source of [Math.random()]: the [n]-th call returns [random n], a
    number in [0, 1). *)
Record Random : Type := {
  random : nat -> Q;
  calls : nat
}.

Definition hex_digit (v : Z) : ascii :=
  nth (Z.to_nat v)
      ["0"; "1"; "2"; "3"; "4"; "5"; "6"; "7"; "8"; "9"; "a"; "b"; "c"; "d"; "e"; "f"]%char
      "?"%char.

(** The callback of [generateUUID] (lines 389-393) on one template
    character. *)
Definition uuid_char (c : ascii) (rng : Random) : ascii * Random :=
  if Ascii.eqb c "x" || Ascii.eqb c "y" then
    let r := Qfloor (random rng (calls rng) * 16) in
    let v := if Ascii.eqb c "x" then r else Z.lor (Z.land r 3) 8 in
    (hex_digit v, {| random := random rng; calls := S (calls rng) |})
  else (c, rng).

Fixpoint uuid_replace (template : string) (rng : Random) : string * Random :=
  match template with
  | EmptyString => (EmptyString, rng)
  | String c rest =>
      let '(d, rng1) := uuid_char c rng in
      let '(s, rng2) := uuid_replace rest rng1 in
      (String d s, rng2)
  end.

Definition generateUUID (rng : Random) : string * Random :=
  uuid_replace "xxxxxxxx-xxxx-4xxx-yxxx-xxxxxxxxxxxx" rng.

(** [localStorage].  The two flags say whether the host makes [getItem]
    and [setItem] throw (storage disabled, privacy mode, quota). *)
Record Storage : Type := {
  items : gmap string string;
  getItem_throws : bool;
  setItem_throws : bool
}.

Definition storage_error : Thrown := ThrownError "SecurityError" "localStorage unavailable".

Definition getItem (key : string) (st : Storage) : Completion (option string) :=
  if getItem_throws st then Throw storage_error else Normal (items st !! key).

Definition setItem (key value : string) (st : Storage) : Completion Storage :=
  if setItem_throws st then Throw storage_error
  else Normal {| items := <[key := value]> (items st);
                 getItem_throws := getItem_throws st;
                 setItem_throws := setItem_throws st |}.

Definition STORAGE_KEY : string := "kuack-browser-id".

(** [getOrCreateBrowserId] (lines 402-424): the result, the storage and
    the random source afterwards.  The whole body is inside [try]; the
    [catch] branch draws a new UUID. *)
Definition getOrCreateBrowserId (st : Storage) (rng : Random)
  : Completion string * Storage * Random :=
  match getItem STORAGE_KEY st with
  | Throw _ => let '(id, rng1) := generateUUID rng in (Normal id, st, rng1)
  | Normal existingId =>
      if truthy_opt existingId then
        (Normal (default "" existingId), st, rng)
      else
        let '(newId, rng1) := generateUUID rng in
        match setItem STORAGE_KEY newId st with
        | Throw _ => let '(id, rng2) := generateUUID rng1 in (Normal id, st, rng2)
        | Normal st1 => (Normal newId, st1, rng1)
        end
  end.

(** [convertToWebSocketUrl] (lines 58-72) *)
Definition convertToWebSocketUrl (url : string) : string :=
  let wsUrl :=
    if startsWith "http:" url then replace_prefix "http:" "ws:" url
    else if startsWith "https:" url then replace_prefix "https:" "wss:" url
    else url in
  replace_suffix "/" "" wsUrl.


(** The constructor (lines 50-56) as a computation over the host's storage
    and random source: the instance identifier, the durable identifier,
    and the normalised server address. *)
Record Identity : Type := {
  uuid : string;
  browserId : string;
  serverUrl : string;
  token : string;
  heartbeatInterval : Z
}.

Definition constructor (url tok : string) (hb : Z) (st : Storage) (rng : Random)
  : Completion Identity * Storage * Random :=
  let wsUrl := convertToWebSocketUrl url in
  let '(id, rng1) := generateUUID rng in
  match getOrCreateBrowserId st rng1 with
  | (Normal bid, st1, rng2) =>
      (Normal {| uuid := id; browserId := bid; serverUrl := wsUrl;
                 token := tok; heartbeatInterval := hb |}, st1, rng2)
  | (Throw e, st1, rng2) => (Throw e, st1, rng2)
  end.
(** *** The connection state machine *)

Inductive ConnectionState : Type :=
| disconnected | connecting | connected | reconnecting.

Definition ConnectionState_eqb (a b : ConnectionState) : bool :=
  match a, b with
  | disconnected, disconnected | connecting, connecting
  | connected, connected | reconnecting, reconnecting => true
  | _, _ => false
  end.

(** [WebSocket.readyState] *)
Inductive ReadyState : Type := CONNECTING | OPEN | CLOSING | CLOSED.

Definition isOpen (r : option ReadyState) : bool :=
  match r with
  | Some OPEN => true
  | _ => false
  end.

(** A call of [connect] is suspended at one of its two awaits: the promise
    that waits for the socket to open (line 92), and [register] (line 161),
    which itself waits for [detectGPU] inside [detectResources]. *)
Inductive Phase : Type :=
| AwaitOpen
| AwaitRegister (resources : Resources).

(** How a call of [connect] settled. *)
Inductive Outcome : Type :=
| Resolved
| Rejected (e : Thrown).

Definition CLOSE_CODE_DUPLICATE_BROWSER : Z := 4001.

(** The mutable fields of the class (lines 24-44), the part of the host
    that the callbacks of this instance live in, and what an observer of
    the instance has seen.  Sockets are named by the order of their
    creation; a call of [connect] is named by the socket it created. *)
Record Conn : Type := {
  (* fields *)
  socket : option nat;
  reconnectDelay : Z;
  maxReconnectDelay : Z;
  heartbeatTimer : bool;               (* heartbeatTimer !== null *)
  isConnecting : bool;
  shouldReconnect : bool;
  hasConnectedOnce : bool;
  currentState : ConnectionState;
  detectedResources : option Resources;
  (* host *)
  sockets : list ReadyState;           (* readyState of every socket created *)
  onclose : list nat;                  (* sockets carrying the onclose handler *)
  inflight : list (nat * Phase);       (* suspended calls of connect *)
  timers : list Z;                     (* pending reconnect timeouts, by delay *)
  (* observations *)
  observed : list ConnectionState;     (* calls of onStateChangeCallback *)
  scheduled : list Z;                  (* delay of every reconnect timeout set *)
  outcomes : list (nat * Outcome);     (* settled calls of connect *)
  sent : list string                   (* type of every message sent *)
}.

Definition upd_fields (c : Conn) (so : option nat) (hb ic sr hc : bool) : Conn :=
  {| socket := so; reconnectDelay := reconnectDelay c;
     maxReconnectDelay := maxReconnectDelay c; heartbeatTimer := hb;
     isConnecting := ic; shouldReconnect := sr; hasConnectedOnce := hc;
     currentState := currentState c; detectedResources := detectedResources c;
     sockets := sockets c; onclose := onclose c; inflight := inflight c;
     timers := timers c; observed := observed c; scheduled := scheduled c;
     outcomes := outcomes c; sent := sent c |}.

Definition set_socket (so : option nat) (c : Conn) : Conn :=
  upd_fields c so (heartbeatTimer c) (isConnecting c) (shouldReconnect c) (hasConnectedOnce c).
Definition set_heartbeatTimer (hb : bool) (c : Conn) : Conn :=
  upd_fields c (socket c) hb (isConnecting c) (shouldReconnect c) (hasConnectedOnce c).
Definition set_isConnecting (ic : bool) (c : Conn) : Conn :=
  upd_fields c (socket c) (heartbeatTimer c) ic (shouldReconnect c) (hasConnectedOnce c).
Definition set_shouldReconnect (sr : bool) (c : Conn) : Conn :=
  upd_fields c (socket c) (heartbeatTimer c) (isConnecting c) sr (hasConnectedOnce c).
Definition set_hasConnectedOnce (hc : bool) (c : Conn) : Conn :=
  upd_fields c (socket c) (heartbeatTimer c) (isConnecting c) (shouldReconnect c) hc.

Definition set_reconnectDelay (d : Z) (c : Conn) : Conn :=
  {| socket := socket c; reconnectDelay := d;
     maxReconnectDelay := maxReconnectDelay c; heartbeatTimer := heartbeatTimer c;
     isConnecting := isConnecting c; shouldReconnect := shouldReconnect c;
     hasConnectedOnce := hasConnectedOnce c;
     currentState := currentState c; detectedResources := detectedResources c;
     sockets := sockets c; onclose := onclose c; inflight := inflight c;
     timers := timers c; observed := observed c; scheduled := scheduled c;
     outcomes := outcomes c; sent := sent c |}.

Definition set_detectedResources (r : option Resources) (c : Conn) : Conn :=
  {| socket := socket c; reconnectDelay := reconnectDelay c;
     maxReconnectDelay := maxReconnectDelay c; heartbeatTimer := heartbeatTimer c;
     isConnecting := isConnecting c; shouldReconnect := shouldReconnect c;
     hasConnectedOnce := hasConnectedOnce c;
     currentState := currentState c; detectedResources := r;
     sockets := sockets c; onclose := onclose c; inflight := inflight c;
     timers := timers c; observed := observed c; scheduled := scheduled c;
     outcomes := outcomes c; sent := sent c |}.

Definition upd_host (c : Conn) (ss : list ReadyState) (oc : list nat)
    (fl : list (nat * Phase)) (ts : list Z) : Conn :=
  {| socket := socket c; reconnectDelay := reconnectDelay c;
     maxReconnectDelay := maxReconnectDelay c; heartbeatTimer := heartbeatTimer c;
     isConnecting := isConnecting c; shouldReconnect := shouldReconnect c;
     hasConnectedOnce := hasConnectedOnce c;
     currentState := currentState c; detectedResources := detectedResources c;
     sockets := ss; onclose := oc; inflight := fl;
     timers := ts; observed := observed c; scheduled := scheduled c;
     outcomes := outcomes c; sent := sent c |}.

Definition set_sockets (ss : list ReadyState) (c : Conn) : Conn :=
  upd_host c ss (onclose c) (inflight c) (timers c).
Definition set_onclose (oc : list nat) (c : Conn) : Conn :=
  upd_host c (sockets c) oc (inflight c) (timers c).
Definition set_inflight (fl : list (nat * Phase)) (c : Conn) : Conn :=
  upd_host c (sockets c) (onclose c) fl (timers c).
Definition set_timers (ts : list Z) (c : Conn) : Conn :=
  upd_host c (sockets c) (onclose c) (inflight c) ts.

Definition upd_obs (c : Conn) (st : ConnectionState) (ob : list ConnectionState)
    (sc : list Z) (oc : list (nat * Outcome)) (se : list string) : Conn :=
  {| socket := socket c; reconnectDelay := reconnectDelay c;
     maxReconnectDelay := maxReconnectDelay c; heartbeatTimer := heartbeatTimer c;
     isConnecting := isConnecting c; shouldReconnect := shouldReconnect c;
     hasConnectedOnce := hasConnectedOnce c;
     currentState := st; detectedResources := detectedResources c;
     sockets := sockets c; onclose := onclose c; inflight := inflight c;
     timers := timers c; observed := ob; scheduled := sc;
     outcomes := oc; sent := se |}.

Definition settle (a : nat) (o : Outcome) (c : Conn) : Conn :=
  upd_obs c (currentState c) (observed c) (scheduled c) (outcomes c ++ [(a, o)]) (sent c).
Definition record_sent (ty : string) (c : Conn) : Conn :=
  upd_obs c (currentState c) (observed c) (scheduled c) (outcomes c) (sent c ++ [ty]).

(** [setState] (lines 526-533), with a state-change callback registered. *)
Definition setState (st : ConnectionState) (c : Conn) : Conn :=
  if ConnectionState_eqb (currentState c) st then c
  else upd_obs c st (observed c ++ [st]) (scheduled c) (outcomes c) (sent c).

(** [socket.close()] on socket [s]. *)
Definition close_socket (s : nat) (c : Conn) : Conn :=
  set_sockets (alter (fun r => match r with CLOSED => CLOSED | _ => CLOSING end) s (sockets c)) c.

Definition clear_heartbeat (c : Conn) : Conn :=
  if heartbeatTimer c then set_heartbeatTimer false c else c.

(** [handleDisconnect] (lines 535-548): the timeout is set with the delay
    that is current when it is set. *)
Definition handleDisconnect (c : Conn) : Conn :=
  let c := clear_heartbeat c in
  let c := set_timers (timers c ++ [reconnectDelay c]) c in
  upd_obs c (currentState c) (observed c) (scheduled c ++ [reconnectDelay c]) (outcomes c) (sent c).

(** The [catch] branch of [connect] (lines 168-179), for the call named
    [a] failing with [e]. *)
Definition connect_catch (a : nat) (e : Thrown) (c : Conn) : Conn :=
  let c := set_socket None c in
  let c := set_isConnecting false c in
  let c := set_inflight (List.filter (fun p => negb (Nat.eqb (fst p) a)) (inflight c)) c in
  if shouldReconnect c && hasConnectedOnce c then
    settle a Resolved (handleDisconnect c)
  else
    settle a (Rejected e) c.

(** [connect] up to its first await (lines 75-92).  [ctor] is [Some e]
    when the [WebSocket] constructor throws [e]. *)
Definition connect (ctor : option Thrown) (c : Conn) : Conn :=
  if isConnecting c ||
     match socket c with
     | Some s => isOpen (sockets c !! s)
     | None => false
     end
  then c
  else
    let c := set_isConnecting true c in
    let c := set_shouldReconnect true c in
    let c := setState connecting c in
    let a := length (sockets c) in
    match ctor with
    | Some e => connect_catch a e c
    | None =>
        let c := set_sockets (sockets c ++ [CONNECTING]) c in
        let c := set_socket (Some a) c in
        set_inflight (inflight c ++ [(a, AwaitOpen)]) c
    end.

Definition phase_of (a : nat) (c : Conn) : option Phase :=
  snd <$> find (fun p => Nat.eqb (fst p) a) (inflight c).

Definition set_phase (a : nat) (ph : Phase) (c : Conn) : Conn :=
  set_inflight (map (fun p => if Nat.eqb (fst p) a then (a, ph) else p) (inflight c)) c.

(** [sendMessage] (lines 506-512) *)
Definition sendMessage (ty : string) (c : Conn) : Completion Conn :=
  match socket c with
  | Some s => if isOpen (sockets c !! s) then Normal (record_sent ty c)
              else Throw (Error "Not connected")
  | None => Throw (Error "Not connected")
  end.

(** The [onclose] handler (lines 132-158). *)
Definition on_close (code : Z) (c : Conn) : Conn :=
  let c := set_socket None c in
  let c := set_isConnecting false c in
  let c := clear_heartbeat c in
  if Z.eqb code CLOSE_CODE_DUPLICATE_BROWSER then
    let c := set_shouldReconnect false c in
    setState disconnected c
  else if shouldReconnect c then
    let c := setState reconnecting c in
    handleDisconnect c
  else
    setState disconnected c.

(** [disconnect] (lines 550-564) *)
Definition disconnect (c : Conn) : Conn :=
  let c := set_shouldReconnect false c in
  let c := set_hasConnectedOnce false c in
  let c := setState disconnected c in
  let c := clear_heartbeat c in
  match socket c with
  | Some s => set_socket None (close_socket s c)
  | None => c
  end.

(** What can happen to a connection: calls of its public methods, and the
    events of the host that run one of its callbacks.  Each event runs to
    the next await of the code it resumes. *)
Inductive Event : Type :=
| EvConnect (ctor : option Thrown)        (* connect() is called from outside *)
| EvOpen (a : nat) (nav : Navigator)      (* socket a opens; register starts *)
| EvOpenError (a : nat)                   (* socket a fires onerror while opening *)
| EvOpenTimeout (a : nat)                 (* the 10 s timeout of call a fires *)
| EvRegister (a : nat)                    (* detectResources of call a resolves *)
| EvClose (s : nat) (code : Z)            (* socket s fires a close event *)
| EvTimer (i : nat) (ctor : option Thrown) (* the i-th pending reconnect timeout fires *)
| EvHeartbeat                             (* a heartbeat interval ticks *)
| EvDisconnect.                           (* disconnect() is called from outside *)

Section Machine.

Variable ident : Identity.

Definition is_AwaitOpen (p : option Phase) : bool :=
  match p with
  | Some AwaitOpen => true
  | _ => false
  end.

(** One event.  An event that cannot happen in the state (an unknown
    socket, a call that is not suspended there) leaves the state as it
    is. *)
Definition step (c : Conn) (ev : Event) : Conn :=
  match ev with
  | EvConnect ctor => connect ctor c
  | EvOpen a nav =>
      if is_AwaitOpen (phase_of a c) then
        (* onopen, lines 105-110 *)
        let c := set_sockets (<[a := OPEN]> (sockets c)) c in
        let c := set_hasConnectedOnce true c in
        (* lines 122-158: the handlers are put on this.socket *)
        match socket c with
        | None => connect_catch a (ThrownError "TypeError" "Cannot set properties of null") c
        | Some s =>
            let c := set_onclose (s :: onclose c) c in
            (* register, lines 182-183 *)
            match detectResources nav with
            | Throw e => connect_catch a e c
            | Normal r => set_phase a (AwaitRegister r) c
            end
        end
      else c
  | EvOpenError a =>
      if is_AwaitOpen (phase_of a c) then
        (* onerror, lines 112-118; the host closes the failed socket *)
        let c := set_sockets (alter (fun _ => CLOSED) a (sockets c)) c in
        connect_catch a (Error ("WebSocket connection failed to " +:+ serverUrl ident)) c
      else c
  | EvOpenTimeout a =>
      if is_AwaitOpen (phase_of a c) then
        (* lines 98-103 *)
        let c := match socket c with
                 | Some s => close_socket s c
                 | None => c
                 end in
        connect_catch a (Error ("Connection timeout after 10 seconds to " +:+ serverUrl ident)) c
      else c
  | EvRegister a =>
      match phase_of a c with
      | Some (AwaitRegister r) =>
          (* register, lines 186-208 *)
          let c := set_detectedResources (Some r) c in
          match sendMessage "register" c with
          | Throw e => connect_catch a e c
          | Normal c =>
              (* lines 164-167 *)
              let c := set_heartbeatTimer true c in
              let c := set_isConnecting false c in
              let c := setState connected c in
              let c := set_inflight (List.filter (fun p => negb (Nat.eqb (fst p) a)) (inflight c)) c in
              settle a Resolved c
          end
      | _ => c
      end
  | EvClose s code =>
      let had := existsb (Nat.eqb s) (onclose c) in
      let c := set_sockets (alter (fun _ => CLOSED) s (sockets c)) c in
      if had then on_close code (set_onclose (List.filter (fun x => negb (Nat.eqb x s)) (onclose c)) c)
      else c
  | EvTimer i ctor =>
      match timers c !! i with
      | Some _ =>
          let c := set_timers (take i (timers c) ++ drop (S i) (timers c)) c in
          (* lines 543-546 *)
          if shouldReconnect c then
            let c := set_reconnectDelay (Z.min (reconnectDelay c * 2) (maxReconnectDelay c)) c in
            connect ctor c
          else c
      | None => c
      end
  | EvHeartbeat =>
      (* lines 427-477; a failure to send is caught *)
      match socket c with
      | Some s =>
          if isOpen (sockets c !! s) then
            match sendMessage "heartbeat" c with
            | Normal c => c
            | Throw _ => c
            end
          else clear_heartbeat c
      | None => clear_heartbeat c
      end
  | EvDisconnect => disconnect c
  end.

Definition run (c : Conn) (evs : list Event) : Conn := fold_left step evs c.

End Machine.

(** The fields after the constructor (lines 29-38 and 50-56). *)
Definition new_Connection : Conn :=
  {| socket := None; reconnectDelay := 200; maxReconnectDelay := 3000;
     heartbeatTimer := false; isConnecting := false; shouldReconnect := true;
     hasConnectedOnce := false; currentState := disconnected;
     detectedResources := None;
     sockets := []; onclose := []; inflight := []; timers := [];
     observed := []; scheduled := []; outcomes := []; sent := [] |}.

End Connection.

(** ** The execution engine: what both versions of runtime.ts share

    The repository holds two versions of the [Runtime] class: the one with
    the package.json discovery and a single, host-bridge execution mode
    (src/runtime.ts, lines 36-382), and the one that requires an explicit
    module path and adds the sandbox-syscall mode
    (src/runtime.test.ts, lines 1008-1420).  [Engine] holds what is the
    same in both; [Runtime] and [RuntimeDiscovery] hold the two. *)

Module Engine.

(** *** Pods *)

Record WasmSpec : Type := {
  wasm_path : option string;
  wasm_variant : option string;
  wasm_image : option string;
  wasm_type : option string
}.

Record EnvVar : Type := { env_name : string; env_value : string }.

Record ContainerSpec : Type := {
  c_name : string;
  c_image : string;
  c_command : option (list string);
  c_args : option (list string);
  c_env : option (list EnvVar);
  c_wasm : option WasmSpec
}.

Record PodSpec : Type := {
  metadata_name : string;
  metadata_namespace : string;
  spec_containers : list ContainerSpec
}.

Inductive Phase : Type := Pending | Running | Succeeded | Failed.

Record PodStatus : Type := { phase : Phase; message : string }.

(** [container.wasm?.path], [container.wasm?.variant], ... *)
Definition wasm_field (f : WasmSpec -> option string) (c : ContainerSpec) : option string :=
  match c_wasm c with
  | Some ws => f ws
  | None => None
  end.

(** [container.wasm?.image ?? container.image]: only a missing image falls
    back, an empty one does not. *)
Definition imageRef_of (c : ContainerSpec) : string :=
  match wasm_field wasm_image c with
  | Some i => i
  | None => c_image c
  end.

(** [if (!container.wasm) container.wasm = {}; container.wasm.path = p] *)
Definition set_wasm_path (p : string) (c : ContainerSpec) : ContainerSpec :=
  let ws := match c_wasm c with
            | Some ws => ws
            | None => {| wasm_path := None; wasm_variant := None;
                         wasm_image := None; wasm_type := None |}
            end in
  {| c_name := c_name c; c_image := c_image c; c_command := c_command c;
     c_args := c_args c; c_env := c_env c;
     c_wasm := Some {| wasm_path := Some p; wasm_variant := wasm_variant ws;
                       wasm_image := wasm_image ws; wasm_type := wasm_type ws |} |}.

Definition podKey_of (namespace name : string) : string := namespace +:+ "/" +:+ name.

(** A number in a template literal. *)
Definition Z_toString (z : Z) : string := NilZero.string_of_int (Z.to_int z).

(** *** URLs

    A [URL] object is its text up to the query and the list of its query
    parameters; [searchParams.set] and the serialisation follow the URL
    standard. *)

Record URL : Type := {
  href : string;
  searchParams : list (string * string)
}.

Definition searchParams_has (k : string) (ps : list (string * string)) : bool :=
  existsb (fun p => String.eqb (fst p) k) ps.

Definition searchParams_get (k : string) (ps : list (string * string)) : option string :=
  snd <$> find (fun p => String.eqb (fst p) k) ps.

Definition searchParams_delete (k : string) (ps : list (string * string))
  : list (string * string) :=
  List.filter (fun p => negb (String.eqb (fst p) k)) ps.

(** The first pair named [k] takes the value, the others are removed; with
    no such pair, one is appended. *)
Fixpoint searchParams_set (k v : string) (ps : list (string * string))
  : list (string * string) :=
  match ps with
  | [] => [(k, v)]
  | p :: rest =>
      if String.eqb (fst p) k then (k, v) :: searchParams_delete k rest
      else p :: searchParams_set k v rest
  end.

Definition url_set (k v : string) (u : URL) : URL :=
  {| href := href u; searchParams := searchParams_set k v (searchParams u) |}.

(** [if (cond) url.searchParams.set(k, v)] for an optional string [v] *)
Definition url_set_if (k : string) (v : option string) (u : URL) : URL :=
  match v with
  | Some s => if truthy s then url_set k s u else u
  | None => u
  end.

Definition hex_upper (n : nat) : ascii :=
  nth n ["0"; "1"; "2"; "3"; "4"; "5"; "6"; "7"; "8"; "9"; "A"; "B"; "C"; "D"; "E"; "F"]%char
      "0"%char.

(** The application/x-www-form-urlencoded byte serialiser. *)
Definition urlencode_byte (c : ascii) : string :=
  let n := nat_of_ascii c in
  if ((48 <=? n) && (n <=? 57) || (65 <=? n) && (n <=? 90) || (97 <=? n) && (n <=? 122)
      || (n =? 42) || (n =? 45) || (n =? 46) || (n =? 95))%nat
  then String c EmptyString
  else if (n =? 32)%nat then "+"
  else String "%" (String (hex_upper (n / 16)) (String (hex_upper (n mod 16)) EmptyString)).

Fixpoint urlencode (s : string) : string :=
  match s with
  | EmptyString => EmptyString
  | String c s' => urlencode_byte c +:+ urlencode s'
  end.

Fixpoint serialize_params (ps : list (string * string)) : string :=
  match ps with
  | [] => EmptyString
  | [(k, v)] => urlencode k +:+ "=" +:+ urlencode v
  | (k, v) :: rest => urlencode k +:+ "=" +:+ urlencode v +:+ "&" +:+ serialize_params rest
  end.

(** [url.toString()] *)
Definition URL_toString (u : URL) : string :=
  match searchParams u with
  | [] => href u
  | ps => href u +:+ "?" +:+ serialize_params ps
  end.

(** [sanitizeUrlForLogging] (src/runtime.test.ts, lines 1022-1028).  The
    copy [new URL(url.toString())] is the same URL record: parsing a
    serialised URL gives the URL back.  The copy is what is changed; [url]
    keeps its token. *)
Definition sanitizeUrlForLogging (url : URL) : string :=
  let sanitizedUrl := url in
  let sanitizedUrl :=
    if searchParams_has "token" (searchParams sanitizedUrl)
    then url_set "token" "***" sanitizedUrl
    else sanitizedUrl in
  URL_toString sanitizedUrl.

(** *** The host *)

(** A [Response] of [fetch]. *)
Record Response : Type := {
  resp_ok : bool;
  resp_status : Z;
  resp_statusText : string;
  resp_text : Completion string;            (* await response.text() *)
  resp_arrayBuffer : Completion (list byte) (* await response.arrayBuffer() *)
}.

Inductive FetchOutcome : Type :=
| FetchRejects (e : Thrown)
| FetchResponse (r : Response).

Inductive Level : Type := LevelLog | LevelError | LevelWarn | LevelInfo.

(** What a piece of guest code (a glue module's initialiser or entry
    function) does: the lines it prints on the console, then its result. *)
Record Guest (A : Type) : Type := {
  guest_console : list (Level * string);
  guest_result : Completion A
}.
Arguments guest_console {A} g.
Arguments guest_result {A} g.

(** A module in the wasm-bindgen style: [default] and, optionally,
    [main]; [main] resolves to [undefined] ([None]) or to a value, given by
    its string conversion. *)
Record WasmBindgenModule : Type := {
  mod_default : list byte -> Guest unit;
  mod_main : option (gmap string string -> Guest (option string))
}.

(** A run of [wasi.start]: the chunks written to file descriptors 1 and 2,
    then the exit code, or the error that [start] throws (a trap). *)
Record WasiRun : Type := {
  wasi_writes : list (list byte);
  wasi_result : Completion Z
}.

(** Everything outside the class.  The network is a script: the outcome of
    the [n]-th call of [fetch], whatever its URL.  [interleaved n] are the
    calls [deletePod(namespace, name)] that other tasks make while the
    engine is suspended for the [n]-th time.  The two callbacks are those
    passed to [executePod]: what they do with their argument is theirs,
    what matters here is whether they return ([None]) or throw. *)
Record Host : Type := {
  new_URL : string -> Completion URL;                 (* new URL(s) *)
  window_origin : option string;                      (* window.location.origin *)
  new_URL_base : string -> string -> Completion URL;  (* new URL(s, base) *)
  fetch_outcome : nat -> FetchOutcome;
  JSON_parse_main : string -> Completion (option string);
  WebAssembly_instantiate : list byte -> option Thrown;
  wasi_start : list byte -> list string -> list string -> WasiRun;
  import_module : string -> Completion WasmBindgenModule;
  interleaved : nat -> list (string * string);
  onStatus : PodStatus -> option Thrown;
  onLog : string -> option Thrown
}.

(** The fields of the class that never change. *)
Record Config : Type := {
  registryProxyUrl : string;
  token : string
}.

(** *** State, events and the monad *)

(** The mutable state of the class and of the part of the host it
    touches. *)
Record World : Type := {
  runningPods : gmap string nat;   (* podKey -> AbortController *)
  aborted : gset nat;              (* controllers whose signal is aborted *)
  controllers : nat;               (* AbortControllers created so far *)
  executedPodCount : nat;
  fetches : nat;                   (* calls of fetch so far *)
  suspensions : nat;               (* suspensions so far *)
  intercepting : bool              (* console methods overridden by executeWASM *)
}.

Inductive Download : Type := FetchFile | FetchWasm | FetchJS.

(** What the engine does to the outside, in order. *)
Inductive Event : Type :=
| EStatus (s : PodStatus)              (* onStatus(s) is called *)
| ELog (line : string)                 (* onLog(line) is called *)
| EConsole (lv : Level) (line : string) (* a line on the browser console *)
| EFetch (d : Download) (url : string). (* fetch(url), and which method calls it *)

Definition M (A : Type) : Type := World -> Completion A * World * list Event.

Definition ret {A} (a : A) : M A := fun w => (Normal a, w, []).

Definition bind {A B} (m : M A) (f : A -> M B) : M B :=
  fun w =>
    match m w with
    | (Normal a, w1, t1) => let '(r, w2, t2) := f a w1 in (r, w2, t1 ++ t2)
    | (Throw e, w1, t1) => (Throw e, w1, t1)
    end.

Definition throw {A} (e : Thrown) : M A := fun w => (Throw e, w, []).

(** [try { m } catch (e) { h e }] *)
Definition try_catch {A} (m : M A) (h : Thrown -> M A) : M A :=
  fun w =>
    match m w with
    | (Normal a, w1, t1) => (Normal a, w1, t1)
    | (Throw e, w1, t1) => let '(r, w2, t2) := h e w1 in (r, w2, t1 ++ t2)
    end.

(** [try { m } finally { f }] *)
Definition try_finally {A} (m : M A) (f : M unit) : M A :=
  fun w =>
    let '(r, w1, t1) := m w in
    match f w1 with
    | (Normal _, w2, t2) => (r, w2, t1 ++ t2)
    | (Throw e, w2, t2) => (Throw e, w2, t1 ++ t2)
    end.

Definition emit (ev : Event) : M unit := fun w => (Normal tt, w, [ev]).
Definition get : M World := fun w => (Normal w, w, []).
Definition put (w : World) : M unit := fun _ => (Normal tt, w, []).
Definition lift {A} (c : Completion A) : M A := fun w => (c, w, []).

Declare Scope engine_scope.
Delimit Scope engine_scope with engine.
Notation "x <- y ;; z" := (bind y (fun x => z))
  (at level 100, y at next level, z at level 200, right associativity) : engine_scope.
Notation "y ;; z" := (bind y (fun _ => z))
  (at level 100, z at level 200, right associativity) : engine_scope.
Open Scope engine_scope.

Fixpoint for_each {A} (f : A -> M unit) (l : list A) : M unit :=
  match l with
  | [] => ret tt
  | x :: rest => f x ;; for_each f rest
  end.

Definition set_runningPods (m : gmap string nat) (w : World) : World :=
  {| runningPods := m; aborted := aborted w; controllers := controllers w;
     executedPodCount := executedPodCount w; fetches := fetches w;
     suspensions := suspensions w; intercepting := intercepting w |}.
Definition set_aborted (s : gset nat) (w : World) : World :=
  {| runningPods := runningPods w; aborted := s; controllers := controllers w;
     executedPodCount := executedPodCount w; fetches := fetches w;
     suspensions := suspensions w; intercepting := intercepting w |}.
Definition set_controllers (n : nat) (w : World) : World :=
  {| runningPods := runningPods w; aborted := aborted w; controllers := n;
     executedPodCount := executedPodCount w; fetches := fetches w;
     suspensions := suspensions w; intercepting := intercepting w |}.
Definition set_executedPodCount (n : nat) (w : World) : World :=
  {| runningPods := runningPods w; aborted := aborted w; controllers := controllers w;
     executedPodCount := n; fetches := fetches w;
     suspensions := suspensions w; intercepting := intercepting w |}.
Definition set_fetches (n : nat) (w : World) : World :=
  {| runningPods := runningPods w; aborted := aborted w; controllers := controllers w;
     executedPodCount := executedPodCount w; fetches := n;
     suspensions := suspensions w; intercepting := intercepting w |}.
Definition set_suspensions (n : nat) (w : World) : World :=
  {| runningPods := runningPods w; aborted := aborted w; controllers := controllers w;
     executedPodCount := executedPodCount w; fetches := fetches w;
     suspensions := n; intercepting := intercepting w |}.
Definition set_intercepting (b : bool) (w : World) : World :=
  {| runningPods := runningPods w; aborted := aborted w; controllers := controllers w;
     executedPodCount := executedPodCount w; fetches := fetches w;
     suspensions := suspensions w; intercepting := b |}.

Definition modify (f : World -> World) : M unit := fun w => (Normal tt, f w, []).

Section Engine.

Variable host : Host.
Variable config : Config.

(** *** Callbacks and the console *)

Definition call_onStatus (s : PodStatus) : M unit :=
  emit (EStatus s) ;;
  match onStatus host s with
  | Some e => throw e
  | None => ret tt
  end.

Definition call_onLog (line : string) : M unit :=
  emit (ELog line) ;;
  match onLog host line with
  | Some e => throw e
  | None => ret tt
  end.

(** A call of [console.log], [console.error], ...  While [executeWASM]
    runs, the four methods are its [interceptLog] (lines 1262-1290): the
    line goes to the console, and then to [onLog], unless it reports a
    failed status report; an error of [onLog] is swallowed there.  The
    callbacks do not print on the console themselves, so the re-entrancy
    guard [inLog] is never set on entry. *)
Definition console (lv : Level) (line : string) : M unit :=
  emit (EConsole lv line) ;;
  w <- get ;;
  if intercepting w then
    if includes "[Agent] Failed to report pod status" line then ret tt
    else try_catch (call_onLog line) (fun _ => ret tt)
  else ret tt.

(** *** Cancellation *)

Definition signal_aborted (controller : nat) : M bool :=
  w <- get ;; ret (bool_decide (controller ∈ aborted w)).

(** [deletePod] (lines 1130-1139) *)
Definition deletePod (namespace name : string) : M unit :=
  let podKey := podKey_of namespace name in
  w <- get ;;
  match runningPods w !! podKey with
  | Some controller =>
      console LevelLog ("[Runtime] Terminating pod: " +:+ podKey) ;;
      modify (fun w => set_aborted ({[controller]} ∪ aborted w) w) ;;
      modify (fun w => set_runningPods (delete podKey (runningPods w)) w)
  | None => ret tt
  end.

(** An await on the host (network, compilation, guest code): other tasks
    run, and some of them may delete pods. *)
Definition suspend : M unit :=
  w <- get ;;
  modify (set_suspensions (S (suspensions w))) ;;
  for_each (fun p => deletePod (fst p) (snd p)) (interleaved host (suspensions w)).

(** *** Downloads *)

(** [buildRegistryUrl] (lines 1230-1239) *)
Definition buildRegistryUrl : M URL :=
  try_catch (lift (new_URL host (registryProxyUrl config)))
    (fun err =>
       match window_origin host with
       | Some origin => lift (new_URL_base host (registryProxyUrl config) origin)
       | None => throw err
       end).

(** [await fetch(url)] called from method [d] *)
Definition fetch (d : Download) (url : string) : M Response :=
  emit (EFetch d url) ;;
  w <- get ;;
  modify (set_fetches (S (fetches w))) ;;
  suspend ;;
  match fetch_outcome host (fetches w) with
  | FetchRejects e => throw e
  | FetchResponse r => ret r
  end.

Definition response_text (r : Response) : M string := suspend ;; lift (resp_text r).

Definition response_arrayBuffer (r : Response) : M (list byte) :=
  suspend ;; lift (resp_arrayBuffer r).

(** The error text of a failed download (lines 1158-1164 and 1191-1197) *)
Definition error_text (r : Response) : M string :=
  try_catch
    (text <- response_text r ;;
     ret (if truthy text then resp_statusText r +:+ ": " +:+ text else resp_statusText r))
    (fun _ => ret (resp_statusText r)).

(** The three download methods differ between the two versions of the
    class only in the URL they print: [logUrl] is [url.toString()] in
    src/runtime.ts and [sanitizeUrlForLogging(url)] in
    src/runtime.test.ts. *)
Variable logUrl : URL -> string.

(** [downloadFile] (lines 1141-1169) *)
Definition downloadFile (imageRef path : string) (variant : option string) : M string :=
  url <- buildRegistryUrl ;;
  let url := url_set "image" imageRef url in
  let url := url_set "path" path url in
  let url := url_set_if "token" (Some (token config)) url in
  let url := url_set_if "variant" variant url in
  console LevelLog ("[Runtime] Downloading file " +:+ path +:+ " from " +:+ logUrl url) ;;
  response <- fetch FetchFile (URL_toString url) ;;
  if negb (resp_ok response) then
    errorText <- error_text response ;;
    throw (Error ("Failed to download file " +:+ path +:+ ": " +:+
                  Z_toString (resp_status response) +:+ " " +:+ errorText))
  else response_text response.

(** [downloadWASM] (lines 1171-1203) *)
Definition downloadWASM (container : ContainerSpec) : M (list byte) :=
  url <- buildRegistryUrl ;;
  let imageRef := imageRef_of container in
  let url := url_set "image" imageRef url in
  let url := url_set_if "path" (wasm_field wasm_path container) url in
  let url := url_set_if "token" (Some (token config)) url in
  let url := url_set_if "variant" (wasm_field wasm_variant container) url in
  console LevelLog ("[Runtime] Downloading WASM from " +:+ logUrl url) ;;
  response <- fetch FetchWasm (URL_toString url) ;;
  if negb (resp_ok response) then
    errorText <- error_text response ;;
    throw (Error ("Failed to download WASM: " +:+
                  Z_toString (resp_status response) +:+ " " +:+ errorText))
  else response_arrayBuffer response.

(** [downloadJS] (lines 1205-1228) *)
Definition downloadJS (wasmPath imageRef : string) (variant : option string) : M string :=
  let jsPath := replace_suffix "_bg.wasm" ".js" wasmPath in
  url <- buildRegistryUrl ;;
  let url := url_set "image" imageRef url in
  let url := url_set "path" jsPath url in
  let url := url_set_if "token" (Some (token config)) url in
  let url := url_set_if "variant" variant url in
  console LevelLog ("[Runtime] Downloading JS glue code from " +:+ logUrl url) ;;
  response <- fetch FetchJS (URL_toString url) ;;
  if negb (resp_ok response) then
    throw (Error ("Failed to download JS: " +:+
                  Z_toString (resp_status response) +:+ " " +:+ resp_statusText response))
  else response_text response.

(** *** Host-bridge execution *)

(** Guest code runs while the engine is suspended; what it prints goes
    through the console methods in force. *)
Definition run_guest {A} (g : Guest A) : M A :=
  suspend ;;
  for_each (fun p => console (fst p) (snd p)) (guest_console g) ;;
  lift (guest_result g).

(** [for (const e of env) envObj[e.name] = e.value] *)
Definition envObj_of (env : list EnvVar) : gmap string string :=
  fold_left (fun m e => <[env_name e := env_value e]> m) env ∅.

Definition aborted_error : Thrown := Error "Execution aborted".

(** [executeWASM] (lines 1246-1348) *)
Definition executeWASM (wasmBytes : list byte) (jsCode : string)
    (command args : list string) (env : list EnvVar) (signal : nat) : M unit :=
  w0 <- get ;;
  modify (set_intercepting true) ;;
  console LevelLog "[Runtime] Loading wasm-bindgen JS module..." ;;
  try_finally
    (a <- signal_aborted signal ;;
     (if a : bool then throw aborted_error else ret tt) ;;
     suspend ;;
     module <- lift (import_module host jsCode) ;;
     console LevelLog "[Runtime] Initializing wasm-bindgen module..." ;;
     run_guest (mod_default module wasmBytes) ;;
     console LevelLog "[Runtime] Running WASM module..." ;;
     a <- signal_aborted signal ;;
     (if a : bool then throw aborted_error else ret tt) ;;
     match mod_main module with
     | Some main =>
         result <- run_guest (main (envObj_of env)) ;;
         match result with
         | Some r => call_onLog ("WASM execution completed with result: " +:+ r)
         | None => ret tt
         end
     | None => call_onLog "WASM module initialized successfully (no main function found)"
     end ;;
     console LevelLog "[Runtime] WASM execution completed")
    (modify (set_intercepting (intercepting w0))).

(** The [catch] and [finally] of [executePod] (lines 1119-1127) around its
    [try] block [body]. *)
Definition guarded (podKey : string) (body : M unit) : M unit :=
  try_finally
    (try_catch body
       (fun error =>
          console LevelError ("[Runtime] Pod execution failed: " +:+ toString error) ;;
          call_onStatus {| phase := Failed;
                           message := "Execution error: " +:+ toString error |}))
    (modify (fun w => set_runningPods (delete podKey (runningPods w)) w)).

(** The start of [executePod] (lines 1039-1047) *)
Definition announce (podKey : string) : M unit :=
  console LevelLog ("[Runtime] Executing pod: " +:+ podKey) ;;
  modify (fun w => set_executedPodCount (S (executedPodCount w)) w) ;;
  call_onStatus {| phase := Pending; message := "Downloading WASM module" |}.

(** [new AbortController()] and [this.runningPods.set(podKey, ...)] *)
Definition register_controller (podKey : string) : M nat :=
  w <- get ;;
  let controller := controllers w in
  modify (set_controllers (S controller)) ;;
  modify (fun w => set_runningPods (<[podKey := controller]> (runningPods w)) w) ;;
  ret controller.

End Engine.

End Engine.

(** ** [Runtime] with explicit module configuration and two execution
    modes (src/runtime.test.ts, lines 1008-1420) *)

Module Runtime.
Import Engine.

Section Runtime.

Variable host : Host.
Variable config : Config.

(** [LogFile.write] (lines 1364-1368): the bytes are decoded and passed to
    the log callback.  Strings are byte strings here, so decoding is the
    identity on the bytes. *)
Definition LogFile_write (data : list byte) : M unit :=
  call_onLog host (string_of_list_byte data).

(** [wasi.start(instance)]: the module runs to its end; each write to file
    descriptor 1 or 2 calls [LogFile.write], and an error thrown there
    ends the run. *)
Definition start (run : WasiRun) : M Z :=
  for_each LogFile_write (wasi_writes run) ;;
  lift (wasi_result run).

(** [executeWASI] (lines 1350-1415) *)
Definition executeWASI (wasmBytes : list byte) (command args : list string)
    (env : list EnvVar) (signal : nat) : M unit :=
  console host LevelLog "[Runtime] Initializing WASI..." ;;
  let argsList := command ++ args in
  let envObj := map (fun e => env_name e +:+ "=" +:+ env_value e) env in
  try_catch
    (a <- signal_aborted signal ;;
     (if a : bool then throw aborted_error else ret tt) ;;
     suspend host ;;
     match WebAssembly_instantiate host wasmBytes with
     | Some e => throw e
     | None => ret tt
     end ;;
     console host LevelLog "[Runtime] Running WASI module..." ;;
     a <- signal_aborted signal ;;
     (if a : bool then throw aborted_error else ret tt) ;;
     exitCode <- start (wasi_start host wasmBytes argsList envObj) ;;
     call_onLog host ("WASI execution completed with exit code: " +:+ Z_toString exitCode) ;;
     if negb (Z.eqb exitCode 0) then
       throw (Error ("Process exited with code " +:+ Z_toString exitCode))
     else ret tt)
    (fun err =>
       a <- signal_aborted signal ;;
       if a : bool then throw aborted_error else throw err).

(** [container.wasm.type || "wasi"] (line 1061) *)
Definition wasmType_of (ws : WasmSpec) : string :=
  match wasm_type ws with
  | Some t => if truthy t then t else "wasi"
  | None => "wasi"
  end.

Definition isWasi_of (ws : WasmSpec) : bool := String.eqb (wasmType_of ws) "wasi".

Definition missing_config_error : Thrown :=
  Error "Missing WASM configuration (path) in PodSpec. Node should have resolved this.".

(** The [try] block of [executePod] (lines 1050-1118) *)
Definition executePod_try (podSpec : PodSpec) : M unit :=
  let podKey := podKey_of (metadata_namespace podSpec) (metadata_name podSpec) in
  match head (spec_containers podSpec) with
  | None => throw (Error "No containers specified")
  | Some container =>
      match c_wasm container with
      | None => throw missing_config_error
      | Some ws =>
          if negb (truthy_opt (wasm_path ws)) then throw missing_config_error
          else
            let wasmType := wasmType_of ws in
            let isWasi := isWasi_of ws in
            let wasmPath := default "" (wasm_path ws) in
            console host LevelLog
              ("[Runtime] Configuration: Type=" +:+ wasmType +:+ ", Path=" +:+ wasmPath) ;;
            wasmBytes <- downloadWASM host config sanitizeUrlForLogging container ;;
            jsCode <-
              (if isWasi then ret ""
               else
                 try_catch
                   (downloadJS host config sanitizeUrlForLogging wasmPath
                      (imageRef_of container) (wasm_field wasm_variant container))
                   (fun err =>
                      console host LevelError
                        ("[Runtime] Failed to download JS glue for bindgen module: "
                         +:+ toString err) ;;
                      throw (Error ("Failed to download JS glue for bindgen module: "
                                    +:+ toString err)))) ;;
            call_onStatus host
              {| phase := Running;
                 message := if isWasi then "Executing WASI module"
                            else "Executing WASM module (bindgen)" |} ;;
            abortController <- register_controller podKey ;;
            (if isWasi then
               executeWASI wasmBytes (default [] (c_command container))
                 (default [] (c_args container)) (default [] (c_env container))
                 abortController
             else
               executeWASM host wasmBytes jsCode (default [] (c_command container))
                 (default [] (c_args container)) (default [] (c_env container))
                 abortController) ;;
            call_onStatus host
              {| phase := Succeeded; message := "WASM execution completed" |}
      end
  end.

(** [executePod] (lines 1034-1128) *)
Definition executePod (podSpec : PodSpec) : M unit :=
  let podKey := podKey_of (metadata_namespace podSpec) (metadata_name podSpec) in
  announce host podKey ;;
  guarded host podKey (executePod_try podSpec).

End Runtime.

End Runtime.

(** ** [Runtime] with module-path discovery (src/runtime.ts, lines 36-382) *)

Module RuntimeDiscovery.
Import Engine.

(** The longest prefix of characters other than [/] and [:], and what
    follows it. *)
Fixpoint span_name (s : string) : string * string :=
  match s with
  | EmptyString => (EmptyString, EmptyString)
  | String c s' =>
      if Ascii.eqb c "/" || Ascii.eqb c ":" then (EmptyString, s)
      else let '(n, rest) := span_name s' in (String c n, rest)
  end.

(** A line terminator, which [.] does not match. *)
Definition has_line_terminator (s : string) : bool :=
  includes (String (ascii_of_nat 10) EmptyString) s ||
  includes (String (ascii_of_nat 13) EmptyString) s ||
  includes (String (ascii_of_nat 226) (String (ascii_of_nat 128)
              (String (ascii_of_nat 168) EmptyString))) s ||
  includes (String (ascii_of_nat 226) (String (ascii_of_nat 128)
              (String (ascii_of_nat 169) EmptyString))) s.

(** [imageRef.match(/\/([^/:]+)(?::.+)?$/)], group 1 of the leftmost
    match: after a slash, a non-empty run of characters other than [/]
    and [:], which either ends the string or is followed by a colon and at
    least one more character, none a line terminator, up to the end. *)
Fixpoint match_image_name (s : string) : option string :=
  match s with
  | EmptyString => None
  | String c s' =>
      if Ascii.eqb c "/" then
        let '(n, rest) := span_name s' in
        let tail_ok :=
          match rest with
          | EmptyString => true
          | String d rest' =>
              Ascii.eqb d ":" && negb (String.eqb rest' "") &&
              negb (has_line_terminator rest')
          end in
        if negb (String.eqb n "") && tail_ok then Some n else match_image_name s'
      else match_image_name s'
  end.

Section RuntimeDiscovery.

Variable host : Host.
Variable config : Config.

(** The discovery block of [executePod] (lines 73-113); the result is the
    container as the block leaves it. *)
Definition discoverWasmPath (container : ContainerSpec) : M ContainerSpec :=
  try_catch
    (let imageRef := imageRef_of container in
     console host LevelLog
       ("[Runtime] Discovering WASM path from pkg/package.json for " +:+ imageRef) ;;
     pkgJsonStr <- downloadFile host config URL_toString imageRef "pkg/package.json"
                     (wasm_field wasm_variant container) ;;
     main <- lift (JSON_parse_main host pkgJsonStr) ;;
     if truthy_opt main then
       let mainJs := default "" main in
       let wasmFilename := replace_suffix ".js" "_bg.wasm" mainJs in
       let wasmPath := "pkg/" +:+ wasmFilename in
       console host LevelLog ("[Runtime] Discovered WASM path: " +:+ wasmPath) ;;
       ret (set_wasm_path wasmPath container)
     else ret container)
    (fun err =>
       console host LevelWarn ("[Runtime] Failed to discover WASM path: " +:+ toString err) ;;
       if negb (truthy_opt (wasm_field wasm_path container)) then
         let imageRef := imageRef_of container in
         match match_image_name imageRef with
         | Some name =>
             let snakeName := replace_char "-" "_" name in
             let fallbackPath := "pkg/" +:+ snakeName +:+ "_bg.wasm" in
             console host LevelLog
               ("[Runtime] Using fallback WASM path derived from image name: "
                +:+ fallbackPath) ;;
             ret (set_wasm_path fallbackPath container)
         | None => ret container
         end
       else ret container).

(** The [try] block of [executePod] (lines 67-147) *)
Definition executePod_try (podSpec : PodSpec) : M unit :=
  let podKey := podKey_of (metadata_namespace podSpec) (metadata_name podSpec) in
  match head (spec_containers podSpec) with
  | None => throw (Error "No containers specified")
  | Some container =>
      container <- discoverWasmPath container ;;
      wasmBytes <- downloadWASM host config URL_toString container ;;
      let imageRef := imageRef_of container in
      let wasmPath := match wasm_field wasm_path container with
                      | Some p => if truthy p then p else ""
                      | None => ""
                      end in
      jsCode <- downloadJS host config URL_toString wasmPath imageRef
                  (wasm_field wasm_variant container) ;;
      call_onStatus host {| phase := Running; message := "Executing WASM module" |} ;;
      abortController <- register_controller podKey ;;
      executeWASM host wasmBytes jsCode (default [] (c_command container))
        (default [] (c_args container)) (default [] (c_env container))
        abortController ;;
      call_onStatus host {| phase := Succeeded; message := "WASM execution completed" |}
  end.

(** [executePod] (lines 51-157) *)
Definition executePod (podSpec : PodSpec) : M unit :=
  let podKey := podKey_of (metadata_namespace podSpec) (metadata_name podSpec) in
  announce host podKey ;;
  guarded host podKey (executePod_try podSpec).

End RuntimeDiscovery.

End RuntimeDiscovery.

(** * Vocabulary of the session manager's properties *)

Module ConnectionDefs.
Import Connection.

(** Hosts and identities used in the examples. *)
Definition nav_ok : Navigator :=
  {| hardwareConcurrency := Some 4; jsHeapSizeLimit := None;
     deviceMemory := Some (8 # 1)%Q; gpuSupported := false; gpuAdapterInfo := None;
     browserName := "chrome"; documentHidden := false |}.

Definition nav_no_cpu : Navigator :=
  {| hardwareConcurrency := None; jsHeapSizeLimit := None;
     deviceMemory := Some (8 # 1)%Q; gpuSupported := false; gpuAdapterInfo := None;
     browserName := "chrome"; documentHidden := false |}.

Definition nav_device (d : option Q) : Navigator :=
  {| hardwareConcurrency := Some 4; jsHeapSizeLimit := None;
     deviceMemory := d; gpuSupported := false; gpuAdapterInfo := None;
     browserName := "firefox"; documentHidden := false |}.

Definition ident0 : Identity :=
  {| uuid := "u"; browserId := "b"; serverUrl := "ws://localhost:8080";
     token := "t"; heartbeatInterval := 15000 |}.

(** The invariant behind the backoff: the delay stays between its floor
    and its cap, and every timeout was set with a delay no larger than the
    current one. *)
Definition backoff_inv (c : Conn) : Prop :=
  maxReconnectDelay c = 3000 /\
  200 <= reconnectDelay c <= 3000 /\
  Forall (fun d => 200 <= d <= reconnectDelay c) (scheduled c) /\
  Sorted Z.le (scheduled c).

(** A connection that has given up: no socket, no wish to reconnect. *)
Definition given_up (c : Conn) : Prop :=
  socket c = None /\ shouldReconnect c = false /\ currentState c = disconnected.

(** [c'] is as silent as [c]: nothing was observed, scheduled or created. *)
Definition silent (c c' : Conn) : Prop :=
  observed c' = observed c /\ scheduled c' = scheduled c /\
  length (sockets c') = length (sockets c) /\
  (length (timers c') <= length (timers c))%nat.

Definition explicit_connect (ev : Event) : bool :=
  match ev with
  | EvConnect _ => true
  | _ => false
  end.

Definition schedules (c c' : Conn) : Prop :=
  scheduled c' = scheduled c \/ scheduled c' = scheduled c ++ [reconnectDelay c].

Definition connected0 : Conn :=
  run ident0 new_Connection [EvConnect None; EvOpen 0%nat nav_ok; EvRegister 0%nat].

Definition open_failure (ident : Identity) (a : nat) (ev : Event) (e : Thrown) : Prop :=
  (ev = EvOpenError a /\
   e = Error ("WebSocket connection failed to " +:+ serverUrl ident)) \/
  (ev = EvOpenTimeout a /\
   e = Error ("Connection timeout after 10 seconds to " +:+ serverUrl ident)).

Definition storage_available (st : Storage) : Prop :=
  getItem_throws st = false /\ setItem_throws st = false.

Definition no_storage : Storage :=
  {| items := ∅; getItem_throws := true; setItem_throws := true |}.

Definition empty_storage : Storage :=
  {| items := ∅; getItem_throws := false; setItem_throws := false |}.

Definition rng0 : Random := {| random := fun n => (Z.of_nat (n mod 16) # 16)%Q; calls := 0 |}.

End ConnectionDefs.

(** * Vocabulary of the execution engine's properties *)

Module RuntimeDefs.
Import Engine.

(** Every event of [m], in every world, satisfies [P]. *)
Definition emits {A} (P : Event -> Prop) (m : M A) : Prop :=
  forall w r w' t, m w = (r, w', t) -> Forall P t.

(** [P] holds of every console line and of every log line. *)
Definition benign (P : Event -> Prop) : Prop :=
  (forall lv line, P (EConsole lv line)) /\ (forall line, P (ELog line)).

Definition ok_response (body : string) : Response :=
  {| resp_ok := true; resp_status := 200; resp_statusText := "OK";
     resp_text := Normal body; resp_arrayBuffer := Normal (list_byte_of_string body) |}.

Definition not_found : Response :=
  {| resp_ok := false; resp_status := 404; resp_statusText := "Not Found";
     resp_text := Normal "missing"; resp_arrayBuffer := Normal [] |}.

(** A host on which everything works: every fetch answers 200, the
    module instantiates and exits with code [code], nobody deletes a pod,
    the callbacks return. *)
Definition host_exit (code : Z) : Host :=
  {| new_URL := fun s => Normal {| href := s; searchParams := [] |};
     window_origin := None;
     new_URL_base := fun s b => Normal {| href := b +:+ s; searchParams := [] |};
     fetch_outcome := fun _ => FetchResponse (ok_response "asm");
     JSON_parse_main := fun _ => Normal (Some "mod.js");
     WebAssembly_instantiate := fun _ => None;
     wasi_start := fun _ _ _ => {| wasi_writes := [list_byte_of_string "hello"];
                                   wasi_result := Normal code |};
     import_module := fun _ => Throw (ThrownError "TypeError" "Failed to fetch dynamically imported module");
     interleaved := fun _ => [];
     onStatus := fun _ => None;
     onLog := fun _ => None |}.

Definition config0 : Config :=
  {| registryProxyUrl := "https://registry.example.com/proxy"; token := "s3cr3t" |}.

Definition world0 : World :=
  {| runningPods := ∅; aborted := ∅; controllers := 0; executedPodCount := 0;
     fetches := 0; suspensions := 0; intercepting := false |}.

Definition container_with (ws : option WasmSpec) : ContainerSpec :=
  {| c_name := "runner"; c_image := "ghcr.io/kuack-io/checker:1.2.3";
     c_command := None; c_args := None; c_env := None; c_wasm := ws |}.

Definition pod_with (ws : option WasmSpec) : PodSpec :=
  {| metadata_name := "test-pod"; metadata_namespace := "default";
     spec_containers := [container_with ws] |}.

Definition wasm_explicit (path : string) (type : option string) : WasmSpec :=
  {| wasm_path := Some path; wasm_variant := None; wasm_image := None; wasm_type := type |}.

Definition events_of {A} (r : Completion A * World * list Event) : list Event := snd r.
Definition result_of {A} (r : Completion A * World * list Event) : Completion A := fst (fst r).
Definition world_of {A} (r : Completion A * World * list Event) : World := snd (fst r).

Fixpoint statuses (t : list Event) : list PodStatus :=
  match t with
  | [] => []
  | EStatus s :: t' => s :: statuses t'
  | _ :: t' => statuses t'
  end.

(** No glue download, and no announcement of the host-bridge mode. *)
Definition sandbox_only (ev : Event) : Prop :=
  match ev with
  | EFetch FetchJS _ => False
  | EStatus s => phase s = Running -> message s = "Executing WASI module"
  | _ => True
  end.

Definition not_glue (ev : Event) : Prop :=
  match ev with
  | EFetch FetchJS _ => False
  | _ => True
  end.

(** When [m] returns, its last event is [ev]. *)
Definition returns_after {A} (ev : Event) (m : M A) : Prop :=
  forall w a w' t, m w = (Normal a, w', t) -> exists t0, t = t0 ++ [ev].

Definition success : PodStatus :=
  {| phase := Succeeded; message := "WASM execution completed" |}.

Definition failure (e : Thrown) : PodStatus :=
  {| phase := Failed; message := "Execution error: " +:+ toString e |}.

Definition pending : PodStatus :=
  {| phase := Pending; message := "Downloading WASM module" |}.

(** The world in which the [try] block of [executePod] starts. *)
Definition started (w : World) : World := set_executedPodCount (S (executedPodCount w)) w.

Definition forget (podKey : string) (w : World) : World :=
  set_runningPods (delete podKey (runningPods w)) w.

(** The host of [host_exit], with a status callback that throws. *)
Definition host_throwing_status : Host :=
  {| new_URL := new_URL (host_exit 0); window_origin := None;
     new_URL_base := new_URL_base (host_exit 0);
     fetch_outcome := fetch_outcome (host_exit 0);
     JSON_parse_main := JSON_parse_main (host_exit 0);
     WebAssembly_instantiate := fun _ => None;
     wasi_start := wasi_start (host_exit 0);
     import_module := import_module (host_exit 0);
     interleaved := fun _ => [];
     onStatus := fun _ => Some (Error "status sink closed");
     onLog := fun _ => None |}.

(** What [executePod] owes its caller, given how its [try] block
    completes. *)
Definition outer_contract (podKey : string) (body : Completion unit)
    (run : Completion unit * World * list Event) : Prop :=
  result_of run = Normal tt /\
  head (statuses (events_of run)) = Some pending /\
  runningPods (world_of run) !! podKey = None /\
  match body with
  | Throw e => last (statuses (events_of run)) = Some (failure e)
  | Normal _ => last (statuses (events_of run)) = Some success
  end.

(** The internal steps that the contract is about, each on a host that
    makes it fail. *)
Definition host_with (fetch_script : nat -> FetchOutcome) (inst : option Thrown)
    (run : WasiRun) (deletions : nat -> list (string * string)) : Host :=
  {| new_URL := new_URL (host_exit 0); window_origin := None;
     new_URL_base := new_URL_base (host_exit 0);
     fetch_outcome := fetch_script;
     JSON_parse_main := JSON_parse_main (host_exit 0);
     WebAssembly_instantiate := fun _ => inst;
     wasi_start := fun _ _ _ => run;
     import_module := import_module (host_exit 0);
     interleaved := deletions;
     onStatus := fun _ => None;
     onLog := fun _ => None |}.

Definition final_status (run : Completion unit * World * list Event) : option PodStatus :=
  last (statuses (events_of run)).

Definition exits (code : Z) : WasiRun := {| wasi_writes := []; wasi_result := Normal code |}.

Definition exit_line (code : Z) : string :=
  "WASI execution completed with exit code: " +:+ Z_toString code.

Definition exit_error (code : Z) : Thrown :=
  Error ("Process exited with code " +:+ Z_toString code).

Definition exit_completion (code : Z) : Completion unit :=
  if Z.eqb code 0 then Normal tt else Throw (exit_error code).

Definition suspended (w : World) : World := set_suspensions (S (suspensions w)) w.

Definition downloaded (w : World) : World :=
  suspended (suspended (set_fetches (S (fetches w)) w)).

Definition running_wasi : PodStatus :=
  {| phase := Running; message := "Executing WASI module" |}.

(** Two parameter lists that differ at most in the values under "token". *)
Definition same_but_token (ps qs : list (string * string)) : Prop :=
  Forall2 (fun p q => fst p = fst q /\ (fst p <> "token" -> snd p = snd q)) ps qs.

Definition same_but_token_url (u1 u2 : URL) : Prop :=
  href u1 = href u2 /\ same_but_token (searchParams u1) (searchParams u2).

(** An observer of the console, the callbacks and the state sees every
    event but the text of the URLs passed to [fetch]. *)
Definition mask (ev : Event) : Event :=
  match ev with
  | EFetch d _ => EFetch d ""
  | _ => ev
  end.

(** [m1] and [m2] cannot be told apart by such an observer. *)
Definition same_log {A} (m1 m2 : M A) : Prop :=
  forall w, result_of (m1 w) = result_of (m2 w) /\
            world_of (m1 w) = world_of (m2 w) /\
            map mask (events_of (m1 w)) = map mask (events_of (m2 w)).

(** The URL of each kind of request, from the parsed registry address. *)
Definition file_url (config : Config) (imageRef path : string) (variant : option string)
    (u0 : URL) : URL :=
  url_set_if "variant" variant
    (url_set_if "token" (Some (token config))
       (url_set "path" path (url_set "image" imageRef u0))).

Definition wasm_url (config : Config) (container : ContainerSpec) (u0 : URL) : URL :=
  url_set_if "variant" (wasm_field wasm_variant container)
    (url_set_if "token" (Some (token config))
       (url_set_if "path" (wasm_field wasm_path container)
          (url_set "image" (imageRef_of container) u0))).

Definition js_url (config : Config) (wasmPath imageRef : string) (variant : option string)
    (u0 : URL) : URL :=
  url_set_if "variant" variant
    (url_set_if "token" (Some (token config))
       (url_set "path" (replace_suffix "_bg.wasm" ".js" wasmPath)
          (url_set "image" imageRef u0))).

Definition no_fetch (ev : Event) : Prop :=
  match ev with
  | EFetch _ _ => False
  | _ => True
  end.

(** One line on the console with the URL as [logUrl] prints it, then one call of
    [fetch], with the URL itself; between them at most the same line
    forwarded to the log callback, and no other call of [fetch]. *)
Definition printed_then_fetched (logUrl : URL -> string) (line : string -> string)
    (d : Download) (url : URL) (t : list Event) : Prop :=
  exists fwd rest,
    t = EConsole LevelLog (line (logUrl url)) :: fwd
        ++ EFetch d (URL_toString url) :: rest /\
    Forall no_fetch fwd /\ Forall no_fetch rest.

Definition logged_then_fetched : (string -> string) -> Download -> URL -> list Event -> Prop :=
  printed_then_fetched sanitizeUrlForLogging.

(** What [buildRegistryUrl] computes from the host and the configuration. *)
Definition registry_url (host : Host) (config : Config) : Completion URL :=
  match new_URL host (registryProxyUrl config) with
  | Normal u => Normal u
  | Throw err =>
      match window_origin host with
      | Some origin => new_URL_base host (registryProxyUrl config) origin
      | None => Throw err
      end
  end.

(** Two configurations that differ at most in the value of a token that
    is present in both or absent from both. *)
Definition same_but_token_config (c1 c2 : Config) : Prop :=
  registryProxyUrl c1 = registryProxyUrl c2 /\ truthy (token c1) = truthy (token c2).

(** A request URL carries the token, and its sanitised print does not. *)
Definition token_hidden (tok : string) (url : URL) : Prop :=
  searchParams_get "token" (searchParams url) = Some tok /\
  sanitizeUrlForLogging url = URL_toString (url_set "token" "***" url) /\
  forall v, In ("token", v) (searchParams (url_set "token" "***" url)) -> v = "***".

Definition config_other : Config :=
  {| registryProxyUrl := "https://registry.example.com/proxy"; token := "0ther-t0ken" |}.

(** When [m] returns, what it returns satisfies [Q]. *)
Definition yields {A} (Q : A -> Prop) (m : M A) : Prop :=
  forall w a w' t, m w = (Normal a, w', t) -> Q a.

(** [m] does not throw. *)
Definition total {A} (m : M A) : Prop :=
  forall w, exists a, result_of (m w) = Normal a.

Definition discovered_path (main : string) : string :=
  "pkg/" +:+ replace_suffix ".js" "_bg.wasm" main.

Definition fallback_path (name : string) : string :=
  "pkg/" +:+ replace_char "-"%char "_"%char name +:+ "_bg.wasm".

Definition manifest_url (config : Config) (container : ContainerSpec) (u0 : URL) : URL :=
  file_url config (imageRef_of container) "pkg/package.json"
    (wasm_field wasm_variant container) u0.

Definition no_manifest (ev : Event) : Prop :=
  match ev with
  | EFetch FetchFile _ => False
  | _ => True
  end.

Definition host_offline : Host :=
  {| new_URL := new_URL (host_exit 0); window_origin := None;
     new_URL_base := new_URL_base (host_exit 0);
     fetch_outcome := fun _ => FetchRejects (ThrownError "TypeError" "Failed to fetch");
     JSON_parse_main := JSON_parse_main (host_exit 0);
     WebAssembly_instantiate := fun _ => None;
     wasi_start := wasi_start (host_exit 0);
     import_module := import_module (host_exit 0);
     interleaved := fun _ => [];
     onStatus := fun _ => None;
     onLog := fun _ => None |}.

Definition image_only (image : string) : ContainerSpec :=
  {| c_name := "runner"; c_image := image;
     c_command := None; c_args := None; c_env := None; c_wasm := None |}.

End RuntimeDefs.

(** * Properties of the session manager *)

Module ConnectionSpec.
Import Connection ConnectionDefs.

(** *** Projections through the handlers *)

Ltac proj_simpl :=
  cbn [set_socket set_heartbeatTimer set_isConnecting
       set_shouldReconnect set_hasConnectedOnce set_reconnectDelay
       set_detectedResources set_sockets set_onclose set_inflight set_timers
       upd_fields upd_host upd_obs
       socket reconnectDelay maxReconnectDelay heartbeatTimer isConnecting
       shouldReconnect hasConnectedOnce currentState detectedResources
       sockets onclose inflight timers observed scheduled outcomes sent] in *.

Ltac case_step :=
  first
    [ match goal with
      | |- context [match socket ?c with _ => _ end] => destruct (socket c) eqn:?
      end
    | match goal with
      | |- context [if isOpen ?r then _ else _] => destruct (isOpen r) eqn:?
      end
    | match goal with
      | |- context [if ?b then _ else _] => destruct b eqn:?
      | |- context [match ?x with _ => _ end] => destruct x eqn:?
      end ].

Ltac helper_cases :=
  unfold connect, connect_catch, on_close, disconnect, handleDisconnect,
    clear_heartbeat, setState, settle, record_sent, close_socket, set_phase;
  repeat (proj_simpl; case_step); proj_simpl.

Lemma setState_delay st c : reconnectDelay (setState st c) = reconnectDelay c.
Proof. helper_cases; reflexivity. Qed.
Lemma clear_heartbeat_delay c : reconnectDelay (clear_heartbeat c) = reconnectDelay c.
Proof. helper_cases; reflexivity. Qed.
Lemma handleDisconnect_delay c : reconnectDelay (handleDisconnect c) = reconnectDelay c.
Proof. helper_cases; reflexivity. Qed.
Lemma connect_catch_delay a e c : reconnectDelay (connect_catch a e c) = reconnectDelay c.
Proof. helper_cases; reflexivity. Qed.
Lemma connect_delay ctor c : reconnectDelay (connect ctor c) = reconnectDelay c.
Proof. helper_cases; reflexivity. Qed.
Lemma on_close_delay code c : reconnectDelay (on_close code c) = reconnectDelay c.
Proof. helper_cases; reflexivity. Qed.
Lemma disconnect_delay c : reconnectDelay (disconnect c) = reconnectDelay c.
Proof. helper_cases; reflexivity. Qed.

Lemma setState_max st c : maxReconnectDelay (setState st c) = maxReconnectDelay c.
Proof. helper_cases; reflexivity. Qed.
Lemma clear_heartbeat_max c : maxReconnectDelay (clear_heartbeat c) = maxReconnectDelay c.
Proof. helper_cases; reflexivity. Qed.
Lemma handleDisconnect_max c : maxReconnectDelay (handleDisconnect c) = maxReconnectDelay c.
Proof. helper_cases; reflexivity. Qed.
Lemma connect_catch_max a e c : maxReconnectDelay (connect_catch a e c) = maxReconnectDelay c.
Proof. helper_cases; reflexivity. Qed.
Lemma connect_max ctor c : maxReconnectDelay (connect ctor c) = maxReconnectDelay c.
Proof. helper_cases; reflexivity. Qed.
Lemma on_close_max code c : maxReconnectDelay (on_close code c) = maxReconnectDelay c.
Proof. helper_cases; reflexivity. Qed.
Lemma disconnect_max c : maxReconnectDelay (disconnect c) = maxReconnectDelay c.
Proof. helper_cases; reflexivity. Qed.

Lemma setState_scheduled st c : scheduled (setState st c) = scheduled c.
Proof. helper_cases; reflexivity. Qed.
Lemma clear_heartbeat_scheduled c : scheduled (clear_heartbeat c) = scheduled c.
Proof. helper_cases; reflexivity. Qed.
Lemma disconnect_scheduled c : scheduled (disconnect c) = scheduled c.
Proof. helper_cases; reflexivity. Qed.
Lemma handleDisconnect_scheduled c :
  scheduled (handleDisconnect c) = scheduled c ++ [reconnectDelay c].
Proof. helper_cases; reflexivity. Qed.
Lemma connect_catch_scheduled a e c : schedules c (connect_catch a e c).
Proof. unfold schedules. helper_cases; auto. Qed.
Lemma connect_scheduled ctor c : schedules c (connect ctor c).
Proof. unfold schedules. helper_cases; auto. Qed.
Lemma on_close_scheduled code c : schedules c (on_close code c).
Proof. unfold schedules. helper_cases; auto. Qed.

Create Rewrite HintDb conn.
#[local] Hint Rewrite setState_delay clear_heartbeat_delay handleDisconnect_delay
  connect_catch_delay connect_delay on_close_delay disconnect_delay
  setState_max clear_heartbeat_max handleDisconnect_max connect_catch_max
  connect_max on_close_max disconnect_max
  setState_scheduled clear_heartbeat_scheduled disconnect_scheduled
  handleDisconnect_scheduled : conn.

Ltac step_cases :=
  unfold step, sendMessage, settle, record_sent, close_socket, set_phase;
  repeat (proj_simpl; autorewrite with conn; case_step);
  proj_simpl; autorewrite with conn; proj_simpl.

(** The three handlers that may set a timeout do so at most once, with the
    delay that is current. *)
Ltac use_schedules :=
  match goal with
  | |- context [scheduled (connect_catch ?a ?e ?c)] =>
      destruct (connect_catch_scheduled a e c) as [-> | ->]
  | |- context [scheduled (connect ?ctor ?c)] =>
      destruct (connect_scheduled ctor c) as [-> | ->]
  | |- context [scheduled (on_close ?code ?c)] =>
      destruct (on_close_scheduled code c) as [-> | ->]
  end.

Section Steps.

Variable ident : Identity.

Lemma step_max (c : Conn) (ev : Event) :
  maxReconnectDelay (step ident c ev) = maxReconnectDelay c.
Proof. destruct ev; step_cases; reflexivity. Qed.

Lemma step_delay (c : Conn) (ev : Event) :
  reconnectDelay (step ident c ev) = reconnectDelay c \/
  ((exists i ctor, ev = EvTimer i ctor) /\
   reconnectDelay (step ident c ev) = Z.min (reconnectDelay c * 2) (maxReconnectDelay c)).
Proof.
  destruct ev; step_cases; try (left; reflexivity);
    right; (split; [eauto|reflexivity]).
Qed.

Lemma step_scheduled (c : Conn) (ev : Event) :
  scheduled (step ident c ev) = scheduled c \/
  scheduled (step ident c ev) = scheduled c ++ [reconnectDelay (step ident c ev)].
Proof.
  destruct ev; step_cases; try use_schedules; proj_simpl; auto.
Qed.

Lemma step_register_delay (c : Conn) (a : nat) :
  reconnectDelay (step ident c (EvRegister a)) = reconnectDelay c.
Proof. destruct (step_delay c (EvRegister a)) as [H | [(i & ctor & H) _]]; [exact H | discriminate]. Qed.

End Steps.

(** *** Backoff *)

Lemma Sorted_snoc (l : list Z) (d : Z) :
  Sorted Z.le l -> Forall (fun x => x <= d) l -> Sorted Z.le (l ++ [d]).
Proof.
  induction 1 as [|x l Hs IH Hhd]; intros Hall; cbn.
  - repeat constructor.
  - inversion Hall as [|? ? Hx Hl]; subst.
    constructor; [apply IH, Hl|].
    destruct l as [|y l']; cbn; constructor.
    + exact Hx.
    + inversion Hhd; assumption.
Qed.

Lemma new_Connection_backoff : backoff_inv new_Connection.
Proof. unfold backoff_inv; cbn. repeat split; try lia; constructor. Qed.

Lemma step_backoff (ident : Identity) (c : Conn) (ev : Event) :
  backoff_inv c -> backoff_inv (step ident c ev).
Proof.
  intros (Hmax & Hd & Hall & Hs). unfold backoff_inv.
  rewrite step_max.
  assert (Hd' : reconnectDelay c <= reconnectDelay (step ident c ev) <= 3000).
  { destruct (step_delay ident c ev) as [-> | [_ ->]]; [lia|]. rewrite Hmax. lia. }
  assert (Hall' : Forall (fun d => 200 <= d <= reconnectDelay (step ident c ev)) (scheduled c)).
  { eapply Forall_impl; [exact Hall|]. cbn. intros d ?. lia. }
  split; [exact Hmax|]. split; [lia|].
  destruct (step_scheduled ident c ev) as [-> | ->].
  - split; [exact Hall'|exact Hs].
  - split.
    + apply Forall_app. split; [exact Hall'|]. constructor; [lia|constructor].
    + apply Sorted_snoc; [exact Hs|].
      eapply Forall_impl; [exact Hall'|]. cbn. intros d ?. lia.
Qed.

Lemma run_backoff (ident : Identity) (evs : list Event) (c : Conn) :
  backoff_inv c -> backoff_inv (run ident c evs).
Proof.
  revert c. induction evs as [|ev evs IH]; intros c Hc; cbn.
  - exact Hc.
  - apply IH, step_backoff, Hc.
Qed.


(** *** Duplicate identity *)

Lemma connect_catch_given_up a e c :
  shouldReconnect c = false -> currentState c = disconnected ->
  given_up (connect_catch a e c) /\ silent c (connect_catch a e c).
Proof.
  intros Hsr Hst. unfold given_up, silent, connect_catch, settle. proj_simpl.
  rewrite Hsr. cbn [andb]. proj_simpl. auto 10.
Qed.

Lemma on_close_given_up code c :
  shouldReconnect c = false -> currentState c = disconnected ->
  given_up (on_close code c) /\ silent c (on_close code c).
Proof.
  intros Hsr Hst. unfold given_up, silent, on_close, clear_heartbeat, setState.
  proj_simpl.
  destruct (heartbeatTimer c), (code =? CLOSE_CODE_DUPLICATE_BROWSER); proj_simpl;
    rewrite ?Hsr, ?Hst; cbn [ConnectionState_eqb]; proj_simpl; auto 10.
Qed.

Lemma clear_heartbeat_given_up c :
  given_up c -> given_up (clear_heartbeat c) /\ silent c (clear_heartbeat c).
Proof.
  intros (Hso & Hsr & Hst). unfold given_up, silent, clear_heartbeat.
  destruct (heartbeatTimer c); proj_simpl; auto 10.
Qed.

Lemma disconnect_given_up c :
  given_up c -> given_up (disconnect c) /\ silent c (disconnect c).
Proof.
  intros (Hso & Hsr & Hst).
  unfold given_up, silent, disconnect, clear_heartbeat, setState. proj_simpl.
  rewrite Hst. cbn [ConnectionState_eqb]. proj_simpl.
  destruct (heartbeatTimer c); proj_simpl; rewrite Hso; auto 10.
Qed.

Lemma length_remove_timer {A} (i : nat) (l : list A) :
  (length (take i l ++ drop (S i) l) <= length l)%nat.
Proof. rewrite length_app, length_take, length_drop. lia. Qed.

Lemma silent_refl c : silent c c.
Proof. unfold silent; auto. Qed.

Lemma silent_trans c1 c2 c3 : silent c1 c2 -> silent c2 c3 -> silent c1 c3.
Proof.
  unfold silent. intros (A1 & A2 & A3 & A4) (B1 & B2 & B3 & B4).
  repeat split; try congruence; lia.
Qed.

Section GivenUp.

Variable ident : Identity.

Lemma step_given_up (c : Conn) (ev : Event) :
  given_up c -> explicit_connect ev = false ->
  given_up (step ident c ev) /\ silent c (step ident c ev).
Proof.
  intros Hc Hev. pose proof Hc as (Hso & Hsr & Hst).
  assert (Hrefl : given_up c /\ silent c c) by (split; [exact Hc|apply silent_refl]).
  destruct ev; try discriminate; unfold step; proj_simpl.
  - (* EvOpen *)
    destruct (is_AwaitOpen (phase_of a c)); [|exact Hrefl].
    rewrite Hso.
    destruct (connect_catch_given_up a (ThrownError "TypeError" "Cannot set properties of null")
                (set_hasConnectedOnce true (set_sockets (<[a:=OPEN]> (sockets c)) c)))
      as [H1 H2]; proj_simpl; auto.
    split; [exact H1|]. unfold silent in *. proj_simpl.
    rewrite length_insert in H2. exact H2.
  - (* EvOpenError *)
    destruct (is_AwaitOpen (phase_of a c)); [|exact Hrefl].
    match goal with |- context [connect_catch a ?e ?c0] =>
      destruct (connect_catch_given_up a e c0) as [H1 H2]; proj_simpl; auto;
      split; [exact H1|]; unfold silent in *; proj_simpl;
      rewrite length_alter in H2; exact H2
    end.
  - (* EvOpenTimeout *)
    destruct (is_AwaitOpen (phase_of a c)); [|exact Hrefl].
    rewrite Hso.
    apply connect_catch_given_up; assumption.
  - (* EvRegister *)
    destruct (phase_of a c) as [[|r]|]; try exact Hrefl.
    unfold sendMessage. proj_simpl. rewrite Hso.
    match goal with |- context [connect_catch a ?e ?c0] =>
      destruct (connect_catch_given_up a e c0) as [H1 H2]; proj_simpl; auto
    end.
  - (* EvClose *)
    destruct (existsb (Nat.eqb s) (onclose c)).
    + match goal with |- context [on_close code ?c0] =>
        destruct (on_close_given_up code c0) as [H1 H2]; proj_simpl; auto;
        split; [exact H1|]; unfold silent in *; proj_simpl;
        rewrite length_alter in H2; exact H2
      end.
    + unfold given_up, silent. proj_simpl. rewrite length_alter. auto 10.
  - (* EvTimer *)
    destruct (timers c !! i); [|exact Hrefl]. proj_simpl. rewrite Hsr.
    unfold given_up, silent. proj_simpl.
    pose proof (length_remove_timer i (timers c)). auto 10.
  - (* EvHeartbeat *)
    rewrite Hso. apply clear_heartbeat_given_up, Hc.
  - (* EvDisconnect *)
    apply disconnect_given_up, Hc.
Qed.

Lemma run_given_up (evs : list Event) (c : Conn) :
  given_up c -> forallb (fun ev => negb (explicit_connect ev)) evs = true ->
  given_up (run ident c evs) /\ silent c (run ident c evs).
Proof.
  revert c. induction evs as [|ev evs IH]; intros c Hc Hevs; cbn in *.
  - split; [exact Hc|apply silent_refl].
  - apply andb_true_iff in Hevs as [Hev Hevs]. apply negb_true_iff in Hev.
    destruct (step_given_up c ev Hc Hev) as [H1 H2].
    destruct (IH _ H1 Hevs) as [H3 H4].
    split; [exact H3|]. eapply silent_trans; eassumption.
Qed.

(** The close handler on the duplicate-identity code. *)
Lemma duplicate_close (c : Conn) (s : nat) :
  In s (onclose c) ->
  let c1 := step ident c (EvClose s CLOSE_CODE_DUPLICATE_BROWSER) in
  given_up c1 /\
  observed c1 = observed c ++ (if ConnectionState_eqb (currentState c) disconnected
                               then [] else [disconnected]) /\
  scheduled c1 = scheduled c /\ timers c1 = timers c /\
  length (sockets c1) = length (sockets c).
Proof.
  intros Hin c1. subst c1. unfold step.
  assert (Hex : existsb (Nat.eqb s) (onclose c) = true).
  { apply existsb_exists. exists s. split; [exact Hin|apply Nat.eqb_refl]. }
  rewrite Hex. unfold on_close, clear_heartbeat, setState, given_up. proj_simpl.
  cbn [Z.eqb CLOSE_CODE_DUPLICATE_BROWSER Pos.eqb].
  destruct (heartbeatTimer c); proj_simpl;
    destruct (ConnectionState_eqb (currentState c) disconnected) eqn:E; proj_simpl;
    rewrite ?length_alter, ?app_nil_r; repeat split; try reflexivity;
    destruct (currentState c); try discriminate; reflexivity.
Qed.

End GivenUp.

(** C6. When a socket that carries the close handler fires a close event
    with the duplicate-identity code 4001, then, whatever happens next short
    of the owner calling [connect] again: reconnection stays disabled, the
    state is [disconnected], the state changes observed from the close
    event on are at most the single change to [disconnected] (never
    [reconnecting]), no reconnect timeout is set and no socket is
    created. *)
Theorem duplicate_close_stops_reconnection
    (ident : Identity) (c : Conn) (s : nat) (evs : list Event) :
  In s (onclose c) ->
  forallb (fun ev => negb (explicit_connect ev)) evs = true ->
  let c' := run ident (step ident c (EvClose s CLOSE_CODE_DUPLICATE_BROWSER)) evs in
  shouldReconnect c' = false /\
  currentState c' = disconnected /\
  (exists obs, observed c' = observed c ++ obs /\
               ~ In reconnecting obs /\ ~ In connecting obs /\
               (obs = [] \/ obs = [disconnected])) /\
  scheduled c' = scheduled c /\
  (length (timers c') <= length (timers c))%nat /\
  length (sockets c') = length (sockets c).
Proof.
  intros Hin Hevs c'.
  destruct (duplicate_close ident c s Hin) as (Hg & Hobs & Hsch & Htm & Hlen).
  destruct (run_given_up ident evs _ Hg Hevs) as [(_ & Hsr & Hst) (Ho & Hs & Hl & Ht)].
  fold c' in Hsr, Hst, Ho, Hs, Hl, Ht.
  split; [exact Hsr|]. split; [exact Hst|]. split.
  - exists (if ConnectionState_eqb (currentState c) disconnected then [] else [disconnected]).
    split; [congruence|].
    destruct (ConnectionState_eqb (currentState c) disconnected); cbn.
    + repeat split; auto.
    + repeat split; [intros [H|[]]; discriminate | intros [H|[]]; discriminate | auto].
  - split; [congruence|]. split; [rewrite Htm in Ht; exact Ht | congruence].
Qed.

Lemma duplicate_close_stops_reconnection_witness :
  let c' := run ident0 (step ident0 connected0 (EvClose 0%nat CLOSE_CODE_DUPLICATE_BROWSER))
                [EvTimer 0%nat None; EvHeartbeat; EvClose 0%nat 1006] in
  currentState connected0 = connected /\
  shouldReconnect c' = false /\
  currentState c' = disconnected /\
  observed c' = [connecting; connected; disconnected].
Proof.
  intros c'.
  destruct (duplicate_close_stops_reconnection ident0 connected0 0%nat
              [EvTimer 0%nat None; EvHeartbeat; EvClose 0%nat 1006])
    as (H1 & H2 & _).
  - cbn. left. reflexivity.
  - reflexivity.
  - split; [reflexivity|]. split; [exact H1|]. split; [exact H2|]. reflexivity.
Defined.

(** *** Failure of [connect] *)

(** C7, as claimed, fails: on the very first call of [connect], with no
    connection ever completed, the transport opens and the registration
    precondition fails (no CPU count).  The call does not reject, and a
    reconnect timeout is set. *)
Lemma first_registration_failure_retries :
  let c := run ident0 new_Connection [EvConnect None; EvOpen 0%nat nav_no_cpu] in
  detectResources nav_no_cpu = Throw cpu_error /\
  ~ In connected (observed c) /\
  outcomes c = [(0%nat, Resolved)] /\
  scheduled c = [200] /\
  timers c = [200].
Proof.
  cbn. repeat split; try reflexivity.
  intros [H|[]]; discriminate.
Qed.

(** C7, amended.  For a call of [connect] that waits for its socket to
    open: if the socket fails to open (error event or timeout) while
    [hasConnectedOnce] is unset, the call rejects with the error and no
    reconnect timeout is set; if it fails while [hasConnectedOnce] and
    [shouldReconnect] are set, the call resolves and a reconnect timeout is
    set with the current delay.  [hasConnectedOnce] is set as soon as a
    socket opens, so a registration precondition failure after the open,
    with reconnection still wanted, always takes the second path, also on
    the first call. *)
Theorem connect_failure_policy (ident : Identity) (c : Conn) (a : nat) :
  is_AwaitOpen (phase_of a c) = true ->
  (forall ev e, open_failure ident a ev e -> hasConnectedOnce c = false ->
     outcomes (step ident c ev) = outcomes c ++ [(a, Rejected e)] /\
     scheduled (step ident c ev) = scheduled c /\
     timers (step ident c ev) = timers c) /\
  (forall ev e, open_failure ident a ev e ->
     hasConnectedOnce c = true -> shouldReconnect c = true ->
     outcomes (step ident c ev) = outcomes c ++ [(a, Resolved)] /\
     scheduled (step ident c ev) = scheduled c ++ [reconnectDelay c] /\
     timers (step ident c ev) = timers c ++ [reconnectDelay c]) /\
  (forall nav e, detectResources nav = Throw e ->
     socket c <> None -> shouldReconnect c = true ->
     outcomes (step ident c (EvOpen a nav)) = outcomes c ++ [(a, Resolved)] /\
     scheduled (step ident c (EvOpen a nav)) = scheduled c ++ [reconnectDelay c] /\
     timers (step ident c (EvOpen a nav)) = timers c ++ [reconnectDelay c]).
Proof.
  intros Hph. split; [|split].
  - intros ev e [[-> ->] | [-> ->]] Hhc; unfold step; rewrite Hph;
      unfold connect_catch, settle, close_socket; proj_simpl.
    + rewrite Hhc, andb_false_r. proj_simpl. auto.
    + destruct (socket c); proj_simpl; rewrite Hhc, andb_false_r; proj_simpl; auto.
  - intros ev e [[-> ->] | [-> ->]] Hhc Hsr; unfold step; rewrite Hph;
      unfold connect_catch, settle, close_socket, handleDisconnect, clear_heartbeat;
      proj_simpl.
    + rewrite Hhc, Hsr. cbn [andb].
      destruct (heartbeatTimer c); proj_simpl; auto.
    + destruct (socket c); proj_simpl; rewrite Hhc, Hsr; cbn [andb];
        destruct (heartbeatTimer c); proj_simpl; auto.
  - intros nav e Hres Hso Hsr. unfold step. rewrite Hph. proj_simpl.
    destruct (socket c) as [s|]; [|congruence].
    rewrite Hres.
    unfold connect_catch, settle, handleDisconnect, clear_heartbeat. proj_simpl.
    rewrite Hsr. cbn [andb].
    destruct (heartbeatTimer c); proj_simpl; auto.
Qed.

Lemma connect_failure_policy_witness :
  let c := run ident0 new_Connection [EvConnect None] in
  outcomes (step ident0 c (EvOpenError 0%nat)) =
    [(0%nat, Rejected (Error "WebSocket connection failed to ws://localhost:8080"))] /\
  scheduled (step ident0 c (EvOpenError 0%nat)) = [] /\
  outcomes (step ident0 c (EvOpen 0%nat nav_no_cpu)) = [(0%nat, Resolved)] /\
  scheduled (step ident0 c (EvOpen 0%nat nav_no_cpu)) = [200].
Proof.
  intros c.
  destruct (connect_failure_policy ident0 c 0%nat eq_refl) as (HA & _ & HC).
  destruct (HA (EvOpenError 0%nat)
               (Error "WebSocket connection failed to ws://localhost:8080"))
    as (H1 & H2 & _).
  { left. split; reflexivity. }
  { reflexivity. }
  destruct (HC nav_no_cpu cpu_error eq_refl) as (H3 & H4 & _).
  { discriminate. }
  { reflexivity. }
  repeat split; assumption.
Defined.

(** *** Memory tiers *)

Local Open Scope Q_scope.

Lemma Qle_bool_false (x y : Q) : Qle_bool x y = false <-> y < x.
Proof.
  split.
  - intros H. apply Qnot_le_lt. intros Hle. apply Qle_bool_iff in Hle. congruence.
  - intros H. destruct (Qle_bool x y) eqn:E; [|reflexivity].
    apply Qle_bool_iff in E. exfalso. apply (Qlt_not_le _ _ H E).
Qed.

Lemma deviceMemoryTier_floor (D : Q) : (1 # 2) <= deviceMemoryTier D.
Proof.
  unfold deviceMemoryTier.
  destruct (Qle_bool D 2) eqn:E2.
  - apply Q.le_max_l.
  - destruct (Qle_bool D 4) eqn:E4; [discriminate|].
    destruct (Qle_bool D 8) eqn:E8; [|discriminate].
    apply Q.min_glb; [discriminate|].
    eapply Qle_trans; [|apply Q.le_max_l]. discriminate.
Qed.

Lemma tier_tiny (D : Q) : D <= 2 -> deviceMemoryTier D == Qmax (1 # 2) (D * (8 # 10)).
Proof.
  intros H. unfold deviceMemoryTier. apply Qle_bool_iff in H. rewrite H. reflexivity.
Qed.

Lemma tier_small (D : Q) : 2 < D -> D <= 4 -> deviceMemoryTier D == 2.
Proof.
  intros H2 H4. unfold deviceMemoryTier.
  apply Qle_bool_false in H2. apply Qle_bool_iff in H4. rewrite H2, H4. reflexivity.
Qed.

Lemma tier_medium (D : Q) :
  4 < D -> D <= 8 -> deviceMemoryTier D == Qmin 4 (Qmax 2 (D * (1 # 2))) /\
                     deviceMemoryTier D == D * (1 # 2).
Proof.
  intros H4 H8. unfold deviceMemoryTier.
  assert (E2 : Qle_bool D 2 = false) by (apply Qle_bool_false; lra).
  assert (E4 : Qle_bool D 4 = false) by (apply Qle_bool_false; lra).
  assert (E8 : Qle_bool D 8 = true) by (apply Qle_bool_iff; exact H8).
  rewrite E2, E4, E8. split; [reflexivity|].
  rewrite (Q.max_r 2 (D * (1 # 2))) by lra.
  apply Q.min_r. lra.
Qed.

Lemma tier_large (D : Q) : 8 < D -> deviceMemoryTier D == 4.
Proof.
  intros H8. unfold deviceMemoryTier.
  assert (E2 : Qle_bool D 2 = false) by (apply Qle_bool_false; lra).
  assert (E4 : Qle_bool D 4 = false) by (apply Qle_bool_false; lra).
  apply Qle_bool_false in H8. rewrite E2, E4, H8. reflexivity.
Qed.

Lemma Qtruthy_pos (x : Q) : 0 < x -> Qtruthy x = true.
Proof.
  intros H. unfold Qtruthy. destruct (Qeq_bool x 0) eqn:E; [|reflexivity].
  apply Qeq_bool_iff in E. lra.
Qed.

(** With no heap ceiling, a positive device memory decides the result. *)
Lemma detectResources_device (nav : Navigator) (cores : Z) (D : Q) :
  hardwareConcurrency nav = Some cores -> (1 <= cores)%Z ->
  jsHeapSizeLimit nav = None -> deviceMemory nav = Some D -> 0 < D ->
  exists r, detectResources nav = Normal r /\ memory r = deviceMemoryTier D /\
            cpu r = (cores * 1000)%Z.
Proof.
  intros Hcpu Hcores Hheap Hdev HD. unfold detectResources.
  rewrite Hcpu.
  replace (cores =? 0)%Z with false by (symmetry; apply Z.eqb_neq; lia).
  replace (cores <? 1)%Z with false by (symmetry; apply Z.ltb_ge; lia).
  cbn [orb]. unfold memoryFromHeap, memoryFromDevice. rewrite Hheap, Hdev.
  rewrite (Qtruthy_pos D HD).
  assert (HltD : Qltb 0 D = true).
  { unfold Qltb. apply negb_true_iff, Qle_bool_false. exact HD. }
  rewrite HltD. cbn [andb].
  pose proof (deviceMemoryTier_floor D) as Hfloor.
  rewrite Qtruthy_pos by lra.
  assert (Hlt : Qltb (deviceMemoryTier D) (1 # 10) = false).
  { unfold Qltb. apply negb_false_iff, Qle_bool_iff. lra. }
  rewrite Hlt. cbn [negb orb]. eexists. split; [reflexivity|]. split; reflexivity.
Qed.

(** C8, as claimed, fails for small devices: with 0.5 GB of device memory
    (a value the Device Memory API reports) the agent reports 0.5 GiB, not
    80% of 0.5 GB. *)
Lemma tiny_device_reports_floor :
  exists r, detectResources (nav_device (Some (1 # 2))) = Normal r /\
            memory r == 1 # 2 /\
            ~ memory r == (8 # 10) * (1 # 2).
Proof.
  eexists. split; [reflexivity|]. split; [reflexivity|]. discriminate.
Qed.

(** C8, amended.  With a CPU count and no JS-heap ceiling, a host that
    reports [D] GB of device memory gets: the larger of 0.5 GiB and 80% of
    [D] for [D <= 2] (which is 80% of [D] from [D = 0.625] on); 2 GiB for
    [2 < D <= 4]; clamp(0.5 D, 2, 4) GiB, that is [0.5 D], for
    [4 < D <= 8]; 4 GiB for [D > 8].  A host with neither a heap ceiling
    nor a positive device memory makes [detectResources] throw. *)
Theorem detectResources_memory_tiers (nav : Navigator) (cores : Z) :
  hardwareConcurrency nav = Some cores -> (1 <= cores)%Z ->
  jsHeapSizeLimit nav = None ->
  (forall D, deviceMemory nav = Some D -> 0 < D ->
     exists r, detectResources nav = Normal r /\
       (D <= 2 -> memory r == Qmax (1 # 2) (D * (8 # 10))) /\
       (5 # 8 <= D -> D <= 2 -> memory r == D * (8 # 10)) /\
       (D <= 5 # 8 -> memory r == 1 # 2) /\
       (2 < D -> D <= 4 -> memory r == 2) /\
       (4 < D -> D <= 8 -> memory r == Qmin 4 (Qmax 2 (D * (1 # 2))) /\
                           memory r == D * (1 # 2)) /\
       (8 < D -> memory r == 4)) /\
  (deviceMemory nav = None -> detectResources nav = Throw memory_error) /\
  (forall D, deviceMemory nav = Some D -> D <= 0 ->
     detectResources nav = Throw memory_error).
Proof.
  intros Hcpu Hcores Hheap. split; [|split].
  - intros D Hdev HD.
    destruct (detectResources_device nav cores D Hcpu Hcores Hheap Hdev HD)
      as (r & Hr & Hm & _).
    exists r. split; [exact Hr|]. rewrite Hm.
    split; [apply tier_tiny|].
    split. { intros H1 H2. rewrite (tier_tiny D H2). apply Q.max_r. lra. }
    split. { intros H1. rewrite (tier_tiny D) by lra. apply Q.max_l. lra. }
    split; [apply tier_small|]. split; [apply tier_medium|apply tier_large].
  - intros Hdev. unfold detectResources. rewrite Hcpu.
    replace (cores =? 0)%Z with false by (symmetry; apply Z.eqb_neq; lia).
    replace (cores <? 1)%Z with false by (symmetry; apply Z.ltb_ge; lia).
    unfold memoryFromHeap, memoryFromDevice. rewrite Hheap, Hdev. reflexivity.
  - intros D Hdev HD. unfold detectResources. rewrite Hcpu.
    replace (cores =? 0)%Z with false by (symmetry; apply Z.eqb_neq; lia).
    replace (cores <? 1)%Z with false by (symmetry; apply Z.ltb_ge; lia).
    unfold memoryFromHeap, memoryFromDevice. rewrite Hheap, Hdev.
    assert (Hlt : Qltb 0 D = false).
    { unfold Qltb. apply negb_false_iff, Qle_bool_iff. exact HD. }
    rewrite Hlt, andb_false_r. reflexivity.
Qed.

Lemma detectResources_memory_tiers_witness :
  (exists r, detectResources (nav_device (Some 6)) = Normal r /\ memory r == 3) /\
  (exists r, detectResources (nav_device (Some (1 # 2))) = Normal r /\ memory r == 1 # 2) /\
  detectResources (nav_device None) = Throw memory_error.
Proof.
  split; [|split].
  - destruct (detectResources_memory_tiers (nav_device (Some 6)) 4 eq_refl)
      as (H & _ & _); [discriminate | reflexivity |].
    destruct (H 6 eq_refl) as (r & Hr & _ & _ & _ & _ & H6 & _); [reflexivity|].
    exists r. split; [exact Hr|].
    destruct H6 as [_ H6]; [reflexivity | discriminate |].
    rewrite H6. reflexivity.
  - destruct (detectResources_memory_tiers (nav_device (Some (1 # 2))) 4 eq_refl)
      as (H & _ & _); [discriminate | reflexivity |].
    destruct (H (1 # 2) eq_refl) as (r & Hr & _ & _ & H1 & _); [reflexivity|].
    exists r. split; [exact Hr|]. apply H1. discriminate.
  - destruct (detectResources_memory_tiers (nav_device None) 4 eq_refl)
      as (_ & H & _); [discriminate | reflexivity |].
    apply H. reflexivity.
Defined.

Local Close Scope Q_scope.

(** *** Durable identifier *)

Lemma generateUUID_length (rng : Random) :
  String.length (fst (generateUUID rng)) = 36%nat.
Proof. reflexivity. Qed.

Lemma generateUUID_truthy (rng : Random) : truthy (fst (generateUUID rng)) = true.
Proof. reflexivity. Qed.

(** With working storage, one call leaves a storage from which every later
    call returns the same identifier and changes nothing. *)
Lemma getOrCreateBrowserId_stable (st : Storage) (rng : Random) :
  storage_available st ->
  exists id st1 rng1,
    getOrCreateBrowserId st rng = (Normal id, st1, rng1) /\
    storage_available st1 /\
    items st1 !! STORAGE_KEY = Some id /\ truthy id = true /\
    forall rng', getOrCreateBrowserId st1 rng' = (Normal id, st1, rng').
Proof.
  intros [Hget Hset].
  assert (Hfix : forall id st1, storage_available st1 ->
            items st1 !! STORAGE_KEY = Some id -> truthy id = true ->
            forall rng', getOrCreateBrowserId st1 rng' = (Normal id, st1, rng')).
  { intros id st1 [Hg Hs] Hid Ht rng'. unfold getOrCreateBrowserId, getItem.
    rewrite Hg, Hid. cbn [truthy_opt]. rewrite Ht. reflexivity. }
  unfold getOrCreateBrowserId, getItem. rewrite Hget.
  destruct (items st !! STORAGE_KEY) as [existing|] eqn:Hex; cbn [truthy_opt].
  - destruct (truthy existing) eqn:Ht.
    + exists existing, st, rng. repeat split; auto.
      apply Hfix; [split; assumption | assumption | assumption].
    + destruct (generateUUID rng) as [newId rng1] eqn:Hgen.
      unfold setItem. rewrite Hset.
      assert (Htn : truthy newId = true).
      { pose proof (generateUUID_truthy rng) as H. rewrite Hgen in H. exact H. }
      eexists newId, _, rng1. split; [reflexivity|].
      match goal with |- storage_available ?s /\ _ =>
        assert (Hav : storage_available s) by (split; cbn; auto)
      end.
      split; [exact Hav|]. split; [cbn; apply lookup_insert_eq|].
      split; [exact Htn|].
      apply Hfix; [exact Hav | cbn; apply lookup_insert_eq | exact Htn].
  - destruct (generateUUID rng) as [newId rng1] eqn:Hgen.
    unfold setItem. rewrite Hset.
    assert (Htn : truthy newId = true).
    { pose proof (generateUUID_truthy rng) as H. rewrite Hgen in H. exact H. }
    eexists newId, _, rng1. split; [reflexivity|].
    match goal with |- storage_available ?s /\ _ =>
      assert (Hav : storage_available s) by (split; cbn; auto)
    end.
    split; [exact Hav|]. split; [cbn; apply lookup_insert_eq|].
    split; [exact Htn|].
    apply Hfix; [exact Hav | cbn; apply lookup_insert_eq | exact Htn].
Qed.



End ConnectionSpec.

(** * Properties of the execution engine *)

Module RuntimeSpec.
Import Engine RuntimeDefs.

(** *** Events of a computation *)

Section Emits.

Context {P : Event -> Prop}.

Lemma emits_ret {A} (a : A) : emits P (ret a).
Proof. intros w r w' t H. inversion H. constructor. Qed.

Lemma emits_throw {A} (e : Thrown) : emits P (@throw A e).
Proof. intros w r w' t H. inversion H. constructor. Qed.

Lemma emits_lift {A} (c : Completion A) : emits P (lift c).
Proof. intros w r w' t H. inversion H. constructor. Qed.

Lemma emits_get : emits P get.
Proof. intros w r w' t H. inversion H. constructor. Qed.

Lemma emits_modify (f : World -> World) : emits P (modify f).
Proof. intros w r w' t H. inversion H. constructor. Qed.

Lemma emits_emit (ev : Event) : P ev -> emits P (emit ev).
Proof. intros Hev w r w' t H. inversion H. repeat constructor. exact Hev. Qed.

Lemma emits_bind {A B} (m : M A) (f : A -> M B) :
  emits P m -> (forall a, emits P (f a)) -> emits P (bind m f).
Proof.
  intros Hm Hf w r w' t H. unfold bind in H.
  destruct (m w) as [[[a|e] w1] t1] eqn:Em.
  - destruct (f a w1) as [[r2 w2] t2] eqn:Ef. inversion H; subst.
    apply Forall_app. split; [eapply Hm, Em | eapply Hf, Ef].
  - inversion H; subst. eapply Hm, Em.
Qed.

Lemma emits_try_catch {A} (m : M A) (h : Thrown -> M A) :
  emits P m -> (forall e, emits P (h e)) -> emits P (try_catch m h).
Proof.
  intros Hm Hh w r w' t H. unfold try_catch in H.
  destruct (m w) as [[[a|e] w1] t1] eqn:Em.
  - inversion H; subst. eapply Hm, Em.
  - destruct (h e w1) as [[r2 w2] t2] eqn:Eh. inversion H; subst.
    apply Forall_app. split; [eapply Hm, Em | eapply Hh, Eh].
Qed.

Lemma emits_try_finally {A} (m : M A) (f : M unit) :
  emits P m -> emits P f -> emits P (try_finally m f).
Proof.
  intros Hm Hf w r w' t H. unfold try_finally in H.
  destruct (m w) as [[r1 w1] t1] eqn:Em.
  destruct (f w1) as [[[u|e] w2] t2] eqn:Ef; inversion H; subst;
    (apply Forall_app; split; [eapply Hm, Em | eapply Hf, Ef]).
Qed.

Lemma emits_for_each {A} (f : A -> M unit) (l : list A) :
  (forall a, emits P (f a)) -> emits P (for_each f l).
Proof.
  intros Hf. induction l as [|x l IH]; cbn.
  - apply emits_ret.
  - apply emits_bind; [apply Hf | intros _; exact IH].
Qed.

End Emits.

(** Splits a computation along its structure. *)
Ltac emits_step :=
  match goal with
  | |- emits _ (ret _) => apply emits_ret
  | |- emits _ (throw _) => apply emits_throw
  | |- emits _ (lift _) => apply emits_lift
  | |- emits _ get => apply emits_get
  | |- emits _ (modify _) => apply emits_modify
  | |- emits _ (bind _ _) => apply emits_bind; [|intros ?]
  | |- emits _ (try_catch _ _) => apply emits_try_catch; [|intros ?]
  | |- emits _ (try_finally _ _) => apply emits_try_finally
  | |- emits _ (for_each _ _) => apply emits_for_each; intros ?
  | |- emits _ (match ?x with _ => _ end) => destruct x
  | |- emits _ (if ?b then _ else _) => destruct b
  end.

Section EmitsEngine.

Variable host : Host.
Variable config : Config.
Context {P : Event -> Prop}.
Hypothesis HP : benign P.

Lemma call_onLog_emits line : emits P (call_onLog host line).
Proof.
  unfold call_onLog. repeat emits_step. apply emits_emit, HP.
Qed.

Lemma console_emits lv line : emits P (console host lv line).
Proof.
  unfold console. repeat emits_step; try apply call_onLog_emits. apply emits_emit, HP.
Qed.

Lemma signal_aborted_emits s : emits P (signal_aborted s).
Proof. unfold signal_aborted. repeat emits_step. Qed.

Lemma deletePod_emits ns name : emits P (deletePod host ns name).
Proof. unfold deletePod. repeat emits_step. apply console_emits. Qed.

Lemma suspend_emits : emits P (suspend host).
Proof. unfold suspend. repeat emits_step. apply deletePod_emits. Qed.

Lemma buildRegistryUrl_emits : emits P (buildRegistryUrl host config).
Proof. unfold buildRegistryUrl. repeat emits_step. Qed.

Lemma fetch_emits d url : P (EFetch d url) -> emits P (fetch host d url).
Proof.
  intros Hd. unfold fetch. repeat emits_step; try apply suspend_emits.
  apply emits_emit, Hd.
Qed.

Lemma response_text_emits r : emits P (response_text host r).
Proof. unfold response_text. repeat emits_step. apply suspend_emits. Qed.

Lemma response_arrayBuffer_emits r : emits P (response_arrayBuffer host r).
Proof. unfold response_arrayBuffer. repeat emits_step. apply suspend_emits. Qed.

Lemma error_text_emits r : emits P (error_text host r).
Proof. unfold error_text. repeat emits_step. apply response_text_emits. Qed.

Lemma downloadWASM_emits logUrl container :
  (forall url, P (EFetch FetchWasm url)) ->
  emits P (downloadWASM host config logUrl container).
Proof.
  intros Hd. unfold downloadWASM.
  repeat emits_step;
    first [ apply buildRegistryUrl_emits | apply console_emits | apply fetch_emits, Hd
          | apply error_text_emits | apply response_arrayBuffer_emits ].
Qed.

Lemma downloadJS_emits logUrl wasmPath imageRef variant :
  (forall url, P (EFetch FetchJS url)) ->
  emits P (downloadJS host config logUrl wasmPath imageRef variant).
Proof.
  intros Hd. unfold downloadJS.
  repeat emits_step;
    first [ apply buildRegistryUrl_emits | apply console_emits | apply fetch_emits, Hd
          | apply response_text_emits ].
Qed.

Lemma downloadFile_emits logUrl imageRef path variant :
  (forall url, P (EFetch FetchFile url)) ->
  emits P (downloadFile host config logUrl imageRef path variant).
Proof.
  intros Hd. unfold downloadFile.
  repeat emits_step;
    first [ apply buildRegistryUrl_emits | apply console_emits | apply fetch_emits, Hd
          | apply error_text_emits | apply response_text_emits ].
Qed.

Lemma run_guest_emits {A} (g : Guest A) : emits P (run_guest host g).
Proof.
  unfold run_guest. repeat emits_step; first [apply suspend_emits | apply console_emits].
Qed.

Lemma executeWASM_emits wasmBytes jsCode command args env signal :
  emits P (executeWASM host wasmBytes jsCode command args env signal).
Proof.
  unfold executeWASM.
  repeat emits_step;
    first [ apply console_emits | apply signal_aborted_emits | apply suspend_emits
          | apply run_guest_emits | apply call_onLog_emits ].
Qed.

Lemma executeWASI_emits wasmBytes command args env signal :
  emits P (Runtime.executeWASI host wasmBytes command args env signal).
Proof.
  unfold Runtime.executeWASI, Runtime.start, Runtime.LogFile_write.
  repeat emits_step;
    first [ apply console_emits | apply signal_aborted_emits | apply suspend_emits
          | apply call_onLog_emits ].
Qed.

Lemma call_onStatus_emits s : P (EStatus s) -> emits P (call_onStatus host s).
Proof. intros Hs. unfold call_onStatus. repeat emits_step. apply emits_emit, Hs. Qed.

Lemma register_controller_emits podKey : emits P (register_controller podKey).
Proof. unfold register_controller. repeat emits_step. Qed.

Lemma announce_emits podKey :
  (forall s, phase s = Pending -> P (EStatus s)) -> emits P (announce host podKey).
Proof.
  intros Hs. unfold announce.
  repeat emits_step; first [apply console_emits | apply call_onStatus_emits, Hs; reflexivity].
Qed.

Lemma guarded_emits podKey body :
  (forall s, phase s = Failed -> P (EStatus s)) ->
  emits P body -> emits P (guarded host podKey body).
Proof.
  intros Hs Hb. unfold guarded.
  repeat emits_step;
    first [exact Hb | apply console_emits | apply call_onStatus_emits, Hs; reflexivity].
Qed.

End EmitsEngine.

(** *** Test hosts and pods *)

Lemma emits_In {A} (P : Event -> Prop) (m : M A) (w : World) (ev : Event) :
  emits P m -> In ev (events_of (m w)) -> P ev.
Proof.
  intros Hm Hin. destruct (m w) as [[r w'] t] eqn:Hrun.
  specialize (Hm _ _ _ _ Hrun). rewrite List.Forall_forall in Hm. apply Hm, Hin.
Qed.

(** *** Execution mode *)

Lemma sandbox_only_benign : benign sandbox_only.
Proof. split; intros; exact I. Qed.

Lemma not_glue_benign : benign not_glue.
Proof. split; intros; exact I. Qed.



(** *** The outer contract of [executePod] *)

Lemma statuses_app (t1 t2 : list Event) : statuses (t1 ++ t2) = statuses t1 ++ statuses t2.
Proof.
  induction t1 as [|ev t1 IH]; cbn; [reflexivity|].
  destruct ev; cbn; rewrite IH; reflexivity.
Qed.

Lemma returns_after_bind {A B} ev (m : M A) (f : A -> M B) :
  (forall a, returns_after ev (f a)) -> returns_after ev (bind m f).
Proof.
  intros Hf w b w' t H. unfold bind in H.
  destruct (m w) as [[[a|e] w1] t1] eqn:Em; [|discriminate].
  destruct (f a w1) as [[r2 w2] t2] eqn:Ef. inversion H; subst.
  destruct (Hf a _ _ _ _ Ef) as [t0 ->]. exists (t1 ++ t0). apply app_assoc.
Qed.

Lemma returns_after_throw {A} ev (e : Thrown) : returns_after ev (@throw A e).
Proof. intros w a w' t H. discriminate. Qed.

Section Contract.

Variable host : Host.
Variable config : Config.

Lemma call_onStatus_returns_after s : returns_after (EStatus s) (call_onStatus host s).
Proof.
  intros w a w' t H. unfold call_onStatus, bind, emit in H.
  destruct (onStatus host s); cbn in H; [discriminate|].
  inversion H. exists []. reflexivity.
Qed.

Lemma call_onLog_returns_after line : returns_after (ELog line) (call_onLog host line).
Proof.
  intros w a w' t H. unfold call_onLog, bind, emit in H.
  destruct (onLog host line); cbn in H; [discriminate|].
  inversion H. exists []. reflexivity.
Qed.

(** The console never throws, never changes the state, and calls no
    status callback. *)
Lemma console_runs lv line w :
  exists t, console host lv line w = (Normal tt, w, t) /\ statuses t = [].
Proof.
  unfold console, bind, emit, get, try_catch, call_onLog, ret, throw. cbn.
  destruct (intercepting w); [|eexists; split; reflexivity].
  destruct (includes _ line); [eexists; split; reflexivity|].
  destruct (onLog host line); cbn; eexists; split; reflexivity.
Qed.

Lemma executePod_try_returns_after podSpec :
  returns_after (EStatus success) (Runtime.executePod_try host config podSpec).
Proof.
  unfold Runtime.executePod_try.
  repeat match goal with
         | |- returns_after _ (bind _ _) => apply returns_after_bind; intros ?
         | |- returns_after _ (throw _) => apply returns_after_throw
         | |- returns_after _ (match ?x with _ => _ end) => destruct x
         | |- returns_after _ (if ?b then _ else _) => destruct b
         end.
  all: apply call_onStatus_returns_after.
Qed.

Lemma discovery_try_returns_after podSpec :
  returns_after (EStatus success) (RuntimeDiscovery.executePod_try host config podSpec).
Proof.
  unfold RuntimeDiscovery.executePod_try.
  repeat match goal with
         | |- returns_after _ (bind _ _) => apply returns_after_bind; intros ?
         | |- returns_after _ (throw _) => apply returns_after_throw
         | |- returns_after _ (match ?x with _ => _ end) => destruct x
         end.
  all: apply call_onStatus_returns_after.
Qed.

Hypothesis onStatus_returns : forall s, onStatus host s = None.

Lemma call_onStatus_runs s w : call_onStatus host s w = (Normal tt, w, [EStatus s]).
Proof. unfold call_onStatus, bind, emit. rewrite onStatus_returns. reflexivity. Qed.

Lemma announce_runs podKey w :
  exists t, announce host podKey w = (Normal tt, started w, t) /\ statuses t = [pending].
Proof.
  unfold announce. destruct (console_runs LevelLog ("[Runtime] Executing pod: " +:+ podKey) w)
    as (t & Ht & Hs).
  unfold bind at 1. rewrite Ht. unfold bind, modify. rewrite call_onStatus_runs.
  eexists. split; [reflexivity|]. rewrite statuses_app, Hs. reflexivity.
Qed.

(** [guarded] turns every completion of its body into a normal one, and
    every thrown error into a last [Failed] status. *)
Lemma guarded_runs podKey (body : M unit) w :
  exists tc,
    guarded host podKey body w =
      (Normal tt, forget podKey (world_of (body w)), events_of (body w) ++ tc) /\
    match result_of (body w) with
    | Normal _ => tc = []
    | Throw e => statuses tc = [failure e]
    end.
Proof.
  unfold guarded, try_finally, try_catch, world_of, events_of, result_of.
  destruct (body w) as [[[[]|e] w1] t1]; cbn [fst snd].
  - exists []. unfold modify. rewrite app_nil_r. split; reflexivity.
  - destruct (console_runs LevelError ("[Runtime] Pod execution failed: " +:+ toString e) w1)
      as (t & Ht & Hs).
    unfold bind. rewrite Ht, call_onStatus_runs. unfold modify.
    eexists. split; [rewrite app_nil_r; reflexivity|].
    rewrite statuses_app, Hs. reflexivity.
Qed.

End Contract.


Lemma guarded_contract (host : Host) (podKey : string) (body : M unit) (w : World) :
  (forall s, onStatus host s = None) ->
  returns_after (EStatus success) body ->
  outer_contract podKey (result_of (body (started w)))
    ((announce host podKey ;; guarded host podKey body) w).
Proof.
  intros Hcb Hbody.
  destruct (announce_runs host Hcb podKey w) as (ta & Ha & Hsa).
  destruct (guarded_runs host Hcb podKey body (started w)) as (tc & Hg & Htc).
  unfold outer_contract, bind. rewrite Ha, Hg.
  unfold result_of, world_of, events_of in *. cbn [fst snd].
  split; [reflexivity|].
  rewrite !statuses_app, Hsa. split; [reflexivity|]. split.
  { unfold forget. cbn. apply lookup_delete_eq. }
  destruct (body (started w)) as [[[[]|e] w1] t1] eqn:Eb; cbn [fst snd] in *.
  - subst tc.
    destruct (Hbody _ _ _ _ Eb) as [t0 ->].
    rewrite statuses_app. cbn [statuses]. rewrite app_nil_r, app_assoc. apply last_snoc.
  - rewrite Htc, app_assoc. apply last_snoc.
Qed.



Example no_containers :
  statuses (events_of (Runtime.executePod (host_exit 0) config0
     {| metadata_name := "empty"; metadata_namespace := "default"; spec_containers := [] |}
     world0))
  = [pending; failure (Error "No containers specified")].
Proof. reflexivity. Qed.

Example missing_configuration :
  final_status (Runtime.executePod (host_exit 0) config0 (pod_with None) world0)
  = Some (failure Runtime.missing_config_error).
Proof. reflexivity. Qed.

Example failed_download :
  final_status (Runtime.executePod
                  (host_with (fun _ => FetchResponse not_found) None (exits 0) (fun _ => []))
                  config0 (pod_with (Some (wasm_explicit "app.wasm" None))) world0)
  = Some {| phase := Failed;
            message := "Execution error: Error: Failed to download WASM: 404 Not Found: missing" |}.
Proof. reflexivity. Qed.

Example glue_failure :
  final_status (Runtime.executePod
                  (host_with (fun n => match n with
                                       | O => FetchResponse (ok_response "asm")
                                       | _ => FetchRejects (Error "Network error")
                                       end) None (exits 0) (fun _ => []))
                  config0 (pod_with (Some (wasm_explicit "pkg/fail.wasm" (Some "wasm-bindgen"))))
                  world0)
  = Some {| phase := Failed;
            message := "Execution error: Error: Failed to download JS glue for bindgen module: Error: Network error" |}.
Proof. reflexivity. Qed.

Example sandbox_trap :
  final_status (Runtime.executePod
                  (host_with (fun _ => FetchResponse (ok_response "asm")) None
                     {| wasi_writes := [];
                        wasi_result := Throw (ThrownError "RuntimeError" "unreachable") |}
                     (fun _ => []))
                  config0 (pod_with (Some (wasm_explicit "app.wasm" None))) world0)
  = Some {| phase := Failed; message := "Execution error: RuntimeError: unreachable" |}.
Proof. reflexivity. Qed.

(** The pod is deleted while its module is instantiated (the third
    suspension: fetch, arrayBuffer, instantiate). *)
Example cancellation :
  let run := Runtime.executePod
               (host_with (fun _ => FetchResponse (ok_response "asm")) None (exits 0)
                  (fun n => match n with
                            | 2%nat => [("default", "test-pod")]
                            | _ => []
                            end))
               config0 (pod_with (Some (wasm_explicit "app.wasm" None))) world0 in
  final_status run = Some (failure aborted_error) /\
  size (runningPods (world_of run)) = 0%nat.
Proof. split; reflexivity. Qed.

(** *** Sandbox-syscall execution *)

Lemma bind_normal {A B} (m : M A) (f : A -> M B) w a w1 t1 :
  m w = (Normal a, w1, t1) ->
  bind m f w = (result_of (f a w1), world_of (f a w1), t1 ++ events_of (f a w1)).
Proof.
  intros H. unfold bind, result_of, world_of, events_of. rewrite H.
  destruct (f a w1) as [[r w2] t2]. reflexivity.
Qed.

Lemma bind_throw {A B} (m : M A) (f : A -> M B) w e w1 t1 :
  m w = (Throw e, w1, t1) -> bind m f w = (Throw e, w1, t1).
Proof. intros H. unfold bind. rewrite H. reflexivity. Qed.

Lemma run_eta {A} (r : Completion A * World * list Event) :
  r = (result_of r, world_of r, events_of r).
Proof. destruct r as [[? ?] ?]. reflexivity. Qed.

Section Wasi.

Variable host : Host.

Lemma suspend_quiet w :
  interleaved host (suspensions w) = [] ->
  suspend host w = (Normal tt, suspended w, []).
Proof. intros H. unfold suspend, bind, get, modify. rewrite H. reflexivity. Qed.

Hypothesis onLog_returns : forall line, onLog host line = None.

Lemma call_onLog_runs line w : call_onLog host line w = (Normal tt, w, [ELog line]).
Proof. unfold call_onLog, bind, emit. rewrite onLog_returns. reflexivity. Qed.

Lemma writes_run (writes : list (list byte)) w :
  for_each (Runtime.LogFile_write host) writes w =
    (Normal tt, w, map (fun data => ELog (string_of_list_byte data)) writes).
Proof.
  induction writes as [|data writes IH]; [reflexivity|].
  cbn [for_each]. unfold bind. unfold Runtime.LogFile_write at 1.
  rewrite call_onLog_runs, IH. reflexivity.
Qed.

(** [executeWASI] once [start] has returned [code]. *)
Lemma executeWASI_exit wasmBytes command args env signal w code :
  signal ∉ aborted w ->
  interleaved host (suspensions w) = [] ->
  WebAssembly_instantiate host wasmBytes = None ->
  wasi_result (wasi_start host wasmBytes (command ++ args)
                 (map (fun e => env_name e +:+ "=" +:+ env_value e) env)) = Normal code ->
  exists t0,
    Runtime.executeWASI host wasmBytes command args env signal w =
      (exit_completion code, suspended w, t0 ++ [ELog (exit_line code)]) /\
    statuses t0 = [].
Proof.
  intros Hsig Hquiet Hinst Hres. unfold Runtime.executeWASI.
  destruct (console_runs host LevelLog "[Runtime] Initializing WASI..." w) as (t1 & Ht1 & Hs1).
  destruct (console_runs host LevelLog "[Runtime] Running WASI module..." (suspended w))
    as (t2 & Ht2 & Hs2).
  assert (Hdec : bool_decide (signal ∈ aborted w) = false) by (apply bool_decide_eq_false; exact Hsig).
  set (run := wasi_start host wasmBytes _ _) in *.
  exists (t1 ++ t2 ++ map (fun data => ELog (string_of_list_byte data)) (wasi_writes run)).
  split.
  - unfold bind at 1. rewrite Ht1.
    unfold try_catch, signal_aborted, Runtime.start.
    unfold bind, get, ret, throw, lift. cbn [fst snd].
    rewrite Hdec, (suspend_quiet w Hquiet), Hinst, Ht2. cbn [aborted suspended set_suspensions].
    rewrite Hdec, writes_run, Hres, call_onLog_runs.
    unfold exit_completion, exit_error, exit_line.
    destruct (code =? 0) eqn:Hc; cbn [negb].
    + rewrite !app_nil_r, !app_nil_l, <- !app_assoc. reflexivity.
    + cbn [aborted suspended set_suspensions]. rewrite Hdec.
      rewrite !app_nil_r, !app_nil_l, <- !app_assoc. reflexivity.
  - rewrite !statuses_app, Hs1, Hs2. cbn.
    induction (wasi_writes run) as [|d l IH]; [reflexivity|exact IH].
Qed.

End Wasi.

Section WasiPod.

Variable host : Host.
Variable config : Config.

Hypothesis onStatus_returns : forall s, onStatus host s = None.
Hypothesis onLog_returns : forall line, onLog host line = None.
Hypothesis nobody_deletes : forall n, interleaved host n = [].

Lemma buildRegistryUrl_runs u0 w :
  new_URL host (registryProxyUrl config) = Normal u0 ->
  buildRegistryUrl host config w = (Normal u0, w, []).
Proof. intros H. unfold buildRegistryUrl, try_catch, lift. rewrite H. reflexivity. Qed.

Lemma fetch_runs d url r w :
  fetch_outcome host (fetches w) = FetchResponse r ->
  fetch host d url w = (Normal r, suspended (set_fetches (S (fetches w)) w), [EFetch d url]).
Proof.
  intros H. unfold fetch, bind, emit, get, modify.
  rewrite suspend_quiet by apply nobody_deletes. rewrite H. reflexivity.
Qed.

Lemma downloadWASM_runs logUrl container u0 r wasmBytes w :
  new_URL host (registryProxyUrl config) = Normal u0 ->
  fetch_outcome host (fetches w) = FetchResponse r ->
  resp_ok r = true -> resp_arrayBuffer r = Normal wasmBytes ->
  exists t, downloadWASM host config logUrl container w = (Normal wasmBytes, downloaded w, t) /\
            statuses t = [].
Proof.
  intros Hurl Hfetch Hok Hbytes. unfold downloadWASM.
  rewrite (bind_normal _ _ _ _ _ _ (buildRegistryUrl_runs u0 w Hurl)).
  match goal with |- context [console host LevelLog ?line] =>
    destruct (console_runs host LevelLog line w) as (tc & Htc & Hsc)
  end.
  rewrite (bind_normal _ _ _ _ _ _ Htc).
  rewrite (bind_normal _ _ _ _ _ _ (fetch_runs _ _ r w Hfetch)).
  rewrite Hok. cbn [negb]. unfold response_arrayBuffer.
  rewrite (bind_normal _ _ _ _ _ _ (suspend_quiet host _ (nobody_deletes _))).
  unfold lift, result_of, world_of, events_of. cbn [fst snd]. rewrite Hbytes.
  eexists. split; [reflexivity|].
  rewrite !statuses_app, Hsc. reflexivity.
Qed.

(** The [try] block of [executePod] for a sandbox-syscall container whose
    module downloads, instantiates and exits with [code]. *)
Lemma executePod_try_exit podSpec container ws u0 r wasmBytes code w :
  head (spec_containers podSpec) = Some container ->
  c_wasm container = Some ws ->
  truthy_opt (wasm_path ws) = true ->
  Runtime.isWasi_of ws = true ->
  new_URL host (registryProxyUrl config) = Normal u0 ->
  fetch_outcome host (fetches w) = FetchResponse r ->
  resp_ok r = true -> resp_arrayBuffer r = Normal wasmBytes ->
  controllers w ∉ aborted w ->
  WebAssembly_instantiate host wasmBytes = None ->
  wasi_result (wasi_start host wasmBytes
                 (default [] (c_command container) ++ default [] (c_args container))
                 (map (fun e => env_name e +:+ "=" +:+ env_value e)
                      (default [] (c_env container)))) = Normal code ->
  exists t,
    result_of (Runtime.executePod_try host config podSpec w) = exit_completion code /\
    events_of (Runtime.executePod_try host config podSpec w) = t /\
    statuses t = running_wasi :: (if Z.eqb code 0 then [success] else []) /\
    In (ELog (exit_line code)) t.
Proof.
  intros Hhead Hws Hpath Hwasi Hurl Hfetch Hok Hbytes Hfresh Hinst Hres.
  unfold Runtime.executePod_try. rewrite Hhead, Hws, Hpath, Hwasi. cbn [negb].
  match goal with |- context [console host LevelLog ?line] =>
    destruct (console_runs host LevelLog line w) as (tc & Htc & Hsc)
  end.
  rewrite (bind_normal _ _ _ _ _ _ Htc).
  destruct (downloadWASM_runs sanitizeUrlForLogging container u0 r wasmBytes w
              Hurl Hfetch Hok Hbytes) as (td & Htd & Hsd).
  rewrite (bind_normal _ _ _ _ _ _ Htd).
  rewrite (bind_normal _ _ _ _ _ _ (eq_refl : ret "" (downloaded w) = (Normal "", downloaded w, []))).
  rewrite (bind_normal _ _ _ _ _ _ (call_onStatus_runs host onStatus_returns _ _)).
  set (podKey := podKey_of _ _).
  set (w2 := set_runningPods (<[podKey := controllers w]> (runningPods w))
               (set_controllers (S (controllers w)) (downloaded w))).
  assert (Hreg : register_controller podKey (downloaded w) = (Normal (controllers w), w2, []))
    by reflexivity.
  rewrite (bind_normal _ _ _ _ _ _ Hreg).
  destruct (executeWASI_exit host onLog_returns wasmBytes
              (default [] (c_command container)) (default [] (c_args container))
              (default [] (c_env container)) (controllers w) w2 code)
    as (t0 & Hrun & Hs0); [exact Hfresh | apply nobody_deletes | exact Hinst | exact Hres |].
  unfold exit_completion in *.
  destruct (code =? 0) eqn:Hcode.
  - rewrite (bind_normal _ _ _ _ _ _ Hrun).
    rewrite call_onStatus_runs by exact onStatus_returns.
    unfold result_of, world_of, events_of. cbn [fst snd].
    eexists. split; [reflexivity|]. split; [reflexivity|]. split.
    + rewrite !statuses_app, Hsc, Hsd, Hs0. reflexivity.
    + rewrite !in_app_iff. cbn [In]. tauto.
  - rewrite (bind_throw _ _ _ _ _ _ Hrun).
    unfold result_of, world_of, events_of. cbn [fst snd].
    eexists. split; [reflexivity|]. split; [reflexivity|]. split.
    + rewrite !statuses_app, Hsc, Hsd, Hs0. reflexivity.
    + rewrite !in_app_iff. cbn [In]. tauto.
Qed.

End WasiPod.

(** C4. In [executeWASI], once the module is instantiated without a
    cancellation and [start] returns the number [code], the last thing the
    engine does is to pass "WASI execution completed with exit code: "
    followed by [code] to the log callback; with the callback returned,
    [executeWASI] returns normally when [code] is 0 and throws the error
    "Process exited with code " followed by [code] otherwise.  In
    [executePod], for a sandbox-syscall container whose module downloads
    and instantiates, the statuses are then Pending, Running and, for a
    non-zero [code], Failed with "Execution error: Error: Process exited
    with code " followed by [code] (Succeeded for 0), and [executePod]
    itself returns normally. *)
Theorem wasi_exit_code (host : Host) (config : Config) (code : Z) :
  (forall line, onLog host line = None) ->
  (forall wasmBytes command args env signal w,
     signal ∉ aborted w ->
     interleaved host (suspensions w) = [] ->
     WebAssembly_instantiate host wasmBytes = None ->
     wasi_result (wasi_start host wasmBytes (command ++ args)
                    (map (fun e => env_name e +:+ "=" +:+ env_value e) env)) = Normal code ->
     let run := Runtime.executeWASI host wasmBytes command args env signal w in
     (exists t0, events_of run = t0 ++ [ELog (exit_line code)]) /\
     (code = 0 -> result_of run = Normal tt) /\
     (code <> 0 ->
      result_of run = Throw (Error ("Process exited with code " +:+ Z_toString code)))) /\
  ((forall s, onStatus host s = None) ->
   (forall n, interleaved host n = []) ->
   forall podSpec container ws u0 r wasmBytes w,
     head (spec_containers podSpec) = Some container ->
     c_wasm container = Some ws ->
     truthy_opt (wasm_path ws) = true ->
     Runtime.isWasi_of ws = true ->
     new_URL host (registryProxyUrl config) = Normal u0 ->
     fetch_outcome host (fetches w) = FetchResponse r ->
     resp_ok r = true -> resp_arrayBuffer r = Normal wasmBytes ->
     controllers w ∉ aborted w ->
     WebAssembly_instantiate host wasmBytes = None ->
     wasi_result (wasi_start host wasmBytes
                    (default [] (c_command container) ++ default [] (c_args container))
                    (map (fun e => env_name e +:+ "=" +:+ env_value e)
                         (default [] (c_env container)))) = Normal code ->
     let run := Runtime.executePod host config podSpec w in
     result_of run = Normal tt /\
     In (ELog (exit_line code)) (events_of run) /\
     (code = 0 -> statuses (events_of run) = [pending; running_wasi; success]) /\
     (code <> 0 ->
      statuses (events_of run) =
        [pending; running_wasi;
         {| phase := Failed;
            message := "Execution error: Error: Process exited with code "
                       +:+ Z_toString code |}])).
Proof.
  intros HonLog. split.
  - intros wasmBytes command args env signal w Hsig Hquiet Hinst Hres run.
    destruct (executeWASI_exit host HonLog wasmBytes command args env signal w code
                Hsig Hquiet Hinst Hres) as (t0 & Hrun & _).
    subst run. rewrite Hrun. unfold result_of, events_of, exit_completion. cbn [fst snd].
    split; [exists t0; reflexivity|]. split.
    + intros ->. reflexivity.
    + intros Hne. apply Z.eqb_neq in Hne. rewrite Hne. reflexivity.
  - intros HonStatus Hquiet podSpec container ws u0 r wasmBytes w
      Hhead Hws Hpath Hwasi Hurl Hfetch Hok Hbytes Hfresh Hinst Hres run.
    subst run. unfold Runtime.executePod.
    set (podKey := podKey_of _ _).
    destruct (announce_runs host HonStatus podKey w) as (ta & Ha & Hsa).
    destruct (guarded_runs host HonStatus podKey
                (Runtime.executePod_try host config podSpec) (started w))
      as (tc & Hg & Htc).
    destruct (executePod_try_exit host config HonStatus HonLog Hquiet
                podSpec container ws u0 r wasmBytes code (started w)
                Hhead Hws Hpath Hwasi Hurl Hfetch Hok Hbytes Hfresh Hinst Hres)
      as (t & Hr & Ht & Hst & Hin).
    rewrite Hr in Htc. rewrite Ht in Hg.
    rewrite (bind_normal _ _ _ _ _ _ Ha), Hg.
    unfold result_of, world_of, events_of. cbn [fst snd].
    split; [reflexivity|]. split.
    { rewrite !in_app_iff. right. left. exact Hin. }
    rewrite !statuses_app, Hsa, Hst. unfold exit_completion in Htc. split.
    + intros ->. cbn in Htc. subst tc. reflexivity.
    + intros Hne. apply Z.eqb_neq in Hne. rewrite Hne in *. rewrite Htc. reflexivity.
Qed.

Lemma wasi_exit_code_witness :
  result_of (Runtime.executePod (host_exit 3) config0
               (pod_with (Some (wasm_explicit "app.wasm" None))) world0) = Normal tt /\
  statuses (events_of (Runtime.executePod (host_exit 3) config0
               (pod_with (Some (wasm_explicit "app.wasm" None))) world0)) =
    [pending; running_wasi;
     {| phase := Failed;
        message := "Execution error: Error: Process exited with code 3" |}] /\
  result_of (Runtime.executeWASI (host_exit 0) [] [] [] [] 0%nat world0) = Normal tt.
Proof.
  destruct (wasi_exit_code (host_exit 3) config0 3) as [_ Hpod]; [reflexivity|].
  destruct (wasi_exit_code (host_exit 0) config0 0) as [Hwasi _]; [reflexivity|].
  destruct (Hpod (fun _ => eq_refl) (fun _ => eq_refl)
              (pod_with (Some (wasm_explicit "app.wasm" None)))
              (container_with (Some (wasm_explicit "app.wasm" None)))
              (wasm_explicit "app.wasm" None)
              {| href := registryProxyUrl config0; searchParams := [] |}
              (ok_response "asm") (list_byte_of_string "asm") world0)
    as (H1 & _ & _ & H2); try reflexivity.
  { cbn. apply not_elem_of_empty. }
  destruct (Hwasi [] [] [] [] 0%nat world0) as (_ & H3 & _); try reflexivity.
  { cbn. apply not_elem_of_empty. }
  split; [exact H1|]. split; [apply H2; discriminate | apply H3; reflexivity].
Defined.

(** *** The token and the log *)

Lemma get_set_same k v ps : searchParams_get k (searchParams_set k v ps) = Some v.
Proof.
  unfold searchParams_get. induction ps as [|[k' v'] ps IH]; cbn.
  - rewrite String.eqb_refl. reflexivity.
  - destruct (String.eqb k' k) eqn:E; cbn.
    + rewrite String.eqb_refl. reflexivity.
    + rewrite E. exact IH.
Qed.

Lemma get_delete_other k k' ps :
  k <> k' -> searchParams_get k (searchParams_delete k' ps) = searchParams_get k ps.
Proof.
  intros Hne. unfold searchParams_get, searchParams_delete.
  induction ps as [|[k0 v0] ps IH]; cbn; [reflexivity|].
  destruct (String.eqb k0 k') eqn:E; cbn.
  - apply String.eqb_eq in E. subst k0.
    assert (E' : String.eqb k' k = false) by (apply String.eqb_neq; congruence).
    rewrite E'. exact IH.
  - destruct (String.eqb k0 k); [reflexivity|exact IH].
Qed.

Lemma get_set_other k k' v ps :
  k <> k' -> searchParams_get k (searchParams_set k' v ps) = searchParams_get k ps.
Proof.
  intros Hne. induction ps as [|[k0 v0] ps IH]; cbn.
  - unfold searchParams_get. cbn.
    assert (E' : String.eqb k' k = false) by (apply String.eqb_neq; congruence).
    rewrite E'. reflexivity.
  - destruct (String.eqb k0 k') eqn:E.
    + apply String.eqb_eq in E. subst k0.
      assert (E' : String.eqb k' k = false) by (apply String.eqb_neq; congruence).
      unfold searchParams_get in *. cbn. rewrite E'.
      apply (get_delete_other k k' ps Hne).
    + unfold searchParams_get in *. cbn. destruct (String.eqb k0 k); [reflexivity|exact IH].
Qed.

Lemma In_delete k k' v ps :
  In (k, v) (searchParams_delete k' ps) -> k <> k' /\ In (k, v) ps.
Proof.
  unfold searchParams_delete. intros H. apply filter_In in H as [Hin Hk].
  cbn in Hk. apply negb_true_iff, String.eqb_neq in Hk. auto.
Qed.

(** After [set], the only value under the name is the new one. *)
Lemma In_set_same k v v' ps : In (k, v') (searchParams_set k v ps) -> v' = v.
Proof.
  induction ps as [|[k0 v0] ps IH]; cbn.
  - intros [H|[]]. congruence.
  - destruct (String.eqb k0 k) eqn:E; cbn.
    + intros [H|H]; [congruence|]. apply In_delete in H as [Hne _]. congruence.
    + intros [H|H]; [|exact (IH H)].
      apply String.eqb_neq in E. congruence.
Qed.

Lemma same_but_token_refl ps : same_but_token ps ps.
Proof. induction ps; constructor; auto. Qed.

Lemma same_but_token_delete k ps qs :
  same_but_token ps qs ->
  same_but_token (searchParams_delete k ps) (searchParams_delete k qs).
Proof.
  induction 1 as [|p q ps qs [Hk Hv] _ IH]; cbn; [constructor|].
  rewrite <- Hk. destruct (String.eqb (fst p) k); cbn; [exact IH|].
  constructor; [split; assumption|exact IH].
Qed.

Lemma same_but_token_set k v ps qs :
  same_but_token ps qs ->
  same_but_token (searchParams_set k v ps) (searchParams_set k v qs).
Proof.
  induction 1 as [|p q ps qs [Hk Hv] Hrest IH]; cbn.
  - repeat constructor.
  - rewrite <- Hk. destruct (String.eqb (fst p) k).
    + constructor; [split; reflexivity|]. apply same_but_token_delete, Hrest.
    + constructor; [split; assumption|exact IH].
Qed.

Lemma same_but_token_set_token v1 v2 ps qs :
  same_but_token ps qs ->
  same_but_token (searchParams_set "token" v1 ps) (searchParams_set "token" v2 qs).
Proof.
  induction 1 as [|p q ps qs [Hk Hv] Hrest IH]; cbn.
  - constructor; [|constructor]. split; [reflexivity|]. cbn. congruence.
  - rewrite <- Hk. destruct (String.eqb (fst p) "token").
    + constructor; [split; [reflexivity|cbn; congruence]|].
      apply same_but_token_delete, Hrest.
    + constructor; [split; assumption|exact IH].
Qed.

Lemma same_but_token_has ps qs :
  same_but_token ps qs -> searchParams_has "token" ps = searchParams_has "token" qs.
Proof.
  unfold searchParams_has. induction 1 as [|p q ps qs [Hk Hv] _ IH]; cbn; [reflexivity|].
  rewrite <- Hk, IH. reflexivity.
Qed.

Lemma same_but_token_delete_token ps qs :
  same_but_token ps qs ->
  searchParams_delete "token" ps = searchParams_delete "token" qs.
Proof.
  unfold searchParams_delete.
  induction 1 as [|[k v] [k' v'] ps qs [Hk Hv] _ IH]; cbn in *; [reflexivity|].
  subst k'. destruct (String.eqb k "token") eqn:E; cbn; [exact IH|].
  apply String.eqb_neq in E. rewrite (Hv E), IH. reflexivity.
Qed.

(** Overwriting the token makes them equal. *)
Lemma same_but_token_mask v ps qs :
  same_but_token ps qs ->
  searchParams_set "token" v ps = searchParams_set "token" v qs.
Proof.
  induction 1 as [|[k v0] [k' v'] ps qs [Hk Hv] Hrest IH]; cbn in *; [reflexivity|].
  subst k'. destruct (String.eqb k "token") eqn:E.
  - rewrite (same_but_token_delete_token ps qs Hrest). reflexivity.
  - apply String.eqb_neq in E. rewrite (Hv E), IH. reflexivity.
Qed.

Lemma sanitize_same u1 u2 :
  same_but_token_url u1 u2 -> sanitizeUrlForLogging u1 = sanitizeUrlForLogging u2.
Proof.
  intros [Hh Hp]. unfold sanitizeUrlForLogging.
  rewrite (same_but_token_has _ _ Hp).
  destruct (searchParams_has "token" (searchParams u2)) eqn:Hhas.
  - unfold url_set, URL_toString. cbn. rewrite Hh, (same_but_token_mask "***" _ _ Hp).
    reflexivity.
  - (* no token parameter on either side: the lists are equal *)
    assert (Heq : searchParams u1 = searchParams u2).
    { clear Hh. revert Hhas. unfold searchParams_has.
      induction Hp as [|[k v] [k' v'] ps qs [Hk Hv] _ IH]; cbn in *; [reflexivity|].
      subst k'. intros H. apply orb_false_iff in H as [Hk Hrest].
      apply String.eqb_neq in Hk. rewrite (Hv Hk), (IH Hrest). reflexivity. }
    unfold URL_toString. rewrite Hh, Heq. reflexivity.
Qed.

Lemma url_set_same_but_token k v u1 u2 :
  same_but_token_url u1 u2 -> same_but_token_url (url_set k v u1) (url_set k v u2).
Proof. intros [Hh Hp]. split; [exact Hh|]. apply same_but_token_set, Hp. Qed.

Lemma url_set_if_same_but_token k v u1 u2 :
  same_but_token_url u1 u2 -> same_but_token_url (url_set_if k v u1) (url_set_if k v u2).
Proof.
  intros H. unfold url_set_if. destruct v as [s|]; [|exact H].
  destruct (truthy s); [apply url_set_same_but_token, H|exact H].
Qed.

Lemma url_set_token_same_but_token t1 t2 u1 u2 :
  truthy t1 = truthy t2 ->
  same_but_token_url u1 u2 ->
  same_but_token_url (url_set_if "token" (Some t1) u1) (url_set_if "token" (Some t2) u2).
Proof.
  intros Ht [Hh Hp]. unfold url_set_if. rewrite Ht.
  destruct (truthy t2); [|split; assumption].
  split; [exact Hh|]. apply same_but_token_set_token, Hp.
Qed.

(** What [sanitizeUrlForLogging] prints when the URL has a token. *)
Lemma sanitize_hides url :
  searchParams_has "token" (searchParams url) = true ->
  sanitizeUrlForLogging url = URL_toString (url_set "token" "***" url) /\
  searchParams_get "token" (searchParams (url_set "token" "***" url)) = Some "***" /\
  forall v, In ("token", v) (searchParams (url_set "token" "***" url)) -> v = "***".
Proof.
  intros Hhas. unfold sanitizeUrlForLogging. rewrite Hhas.
  split; [reflexivity|]. split; [apply get_set_same|].
  intros v. apply In_set_same.
Qed.

Lemma has_of_get k ps v : searchParams_get k ps = Some v -> searchParams_has k ps = true.
Proof.
  unfold searchParams_get, searchParams_has.
  induction ps as [|[k0 v0] ps IH]; cbn; [discriminate|].
  destruct (String.eqb k0 k); [reflexivity|exact IH].
Qed.

Lemma same_log_refl {A} (m : M A) : same_log m m.
Proof. intros w. auto. Qed.

Lemma same_log_bind {A B} (m1 m2 : M A) (f1 f2 : A -> M B) :
  same_log m1 m2 -> (forall a, same_log (f1 a) (f2 a)) ->
  same_log (bind m1 f1) (bind m2 f2).
Proof.
  intros Hm Hf w. specialize (Hm w). unfold bind, result_of, world_of, events_of in *.
  destruct (m1 w) as [[r1 w1] t1], (m2 w) as [[r2 w2] t2]. cbn [fst snd] in Hm.
  destruct Hm as (-> & -> & Ht). destruct r2 as [a|e]; cbn [fst snd].
  - specialize (Hf a w2). unfold result_of, world_of, events_of in Hf.
    destruct (f1 a w2) as [[r1' w1'] t1'], (f2 a w2) as [[r2' w2'] t2'].
    cbn [fst snd] in *. destruct Hf as (-> & -> & Ht').
    rewrite !map_app, Ht, Ht'. auto.
  - auto.
Qed.

Lemma same_log_try_catch {A} (m1 m2 : M A) (h1 h2 : Thrown -> M A) :
  same_log m1 m2 -> (forall e, same_log (h1 e) (h2 e)) ->
  same_log (try_catch m1 h1) (try_catch m2 h2).
Proof.
  intros Hm Hh w. specialize (Hm w). unfold try_catch, result_of, world_of, events_of in *.
  destruct (m1 w) as [[r1 w1] t1], (m2 w) as [[r2 w2] t2]. cbn [fst snd] in Hm.
  destruct Hm as (-> & -> & Ht). destruct r2 as [a|e]; cbn [fst snd].
  - auto.
  - specialize (Hh e w2). unfold result_of, world_of, events_of in Hh.
    destruct (h1 e w2) as [[r1' w1'] t1'], (h2 e w2) as [[r2' w2'] t2'].
    cbn [fst snd] in *. destruct Hh as (-> & -> & Ht').
    rewrite !map_app, Ht, Ht'. auto.
Qed.

Lemma same_log_try_finally {A} (m1 m2 : M A) (f : M unit) :
  same_log m1 m2 -> same_log (try_finally m1 f) (try_finally m2 f).
Proof.
  intros Hm w. specialize (Hm w). unfold try_finally, result_of, world_of, events_of in *.
  destruct (m1 w) as [[r1 w1] t1], (m2 w) as [[r2 w2] t2]. cbn [fst snd] in Hm.
  destruct Hm as (-> & -> & Ht).
  destruct (f w2) as [[[u|e] w3] t3]; cbn [fst snd]; rewrite !map_app, Ht; auto.
Qed.

Ltac same_log_step :=
  match goal with
  | |- same_log ?m ?m => apply same_log_refl
  | |- same_log (bind _ _) (bind _ _) => apply same_log_bind; [|intros ?]
  | |- same_log (try_catch _ _) (try_catch _ _) => apply same_log_try_catch; [|intros ?]
  | |- same_log (try_finally _ _) (try_finally _ _) => apply same_log_try_finally
  | |- same_log (match ?x with _ => _ end) _ => destruct x
  | |- same_log (if ?b then _ else _) _ => destruct b
  end.

Lemma no_fetch_benign : benign no_fetch.
Proof. split; intros; exact I. Qed.

Lemma emit_bind_events {A B} ev (m : M A) (k : A -> M B) w :
  events_of (bind (bind (emit ev) (fun _ => m)) k w) = ev :: events_of (bind m k w).
Proof.
  unfold bind, emit, events_of.
  destruct (m w) as [[[a|e] w1] t1]; cbn [fst snd app]; [|reflexivity].
  destruct (k a w1) as [[r w2] t2]. reflexivity.
Qed.

Section Token.

Variable host : Host.

Lemma same_log_fetch d u1 u2 : same_log (fetch host d u1) (fetch host d u2).
Proof.
  intros w. unfold fetch, bind, emit, get, modify, result_of, world_of, events_of.
  destruct (suspend host _) as [[[[]|e] w1] t1]; cbn [fst snd]; [|auto].
  destruct (fetch_outcome host (fetches w)); cbn [fst snd]; auto.
Qed.

(** [buildRegistryUrl] reads the host and nothing else. *)
Lemma buildRegistryUrl_pure config w :
  buildRegistryUrl host config w = (registry_url host config, w, []).
Proof.
  unfold buildRegistryUrl, registry_url, try_catch, lift, throw.
  destruct (new_URL host (registryProxyUrl config)); [reflexivity|].
  destruct (window_origin host); reflexivity.
Qed.

Lemma console_line lv line w :
  exists fwd, console host lv line w = (Normal tt, w, EConsole lv line :: fwd) /\
              Forall no_fetch fwd.
Proof.
  unfold console, bind, emit, get, try_catch, call_onLog, ret, throw. cbn.
  destruct (intercepting w); [|eexists; split; [reflexivity|constructor]].
  destruct (includes _ line); [eexists; split; [reflexivity|constructor]|].
  destruct (onLog host line); cbn; eexists; (split; [reflexivity|repeat constructor]).
Qed.

(** The common shape of the three download methods. *)
Lemma request_printed_then_fetched {A} config (logUrl : URL -> string)
    (line : string -> string) d (url : URL -> URL) (k : Response -> M A) u0 w :
  registry_url host config = Normal u0 ->
  (forall r, emits no_fetch (k r)) ->
  printed_then_fetched logUrl line d (url u0)
    (events_of
       ((u <- buildRegistryUrl host config ;;
         console host LevelLog (line (logUrl (url u))) ;;
         response <- fetch host d (URL_toString (url u)) ;;
         k response) w)).
Proof.
  intros Hreg Hk.
  assert (Hb : buildRegistryUrl host config w = (Normal u0, w, [])).
  { rewrite buildRegistryUrl_pure, Hreg. reflexivity. }
  rewrite (bind_normal _ _ _ _ _ _ Hb).
  destruct (console_line LevelLog (line (logUrl (url u0))) w)
    as (fwd & Hc & Hfwd).
  rewrite (bind_normal _ _ _ _ _ _ Hc).
  unfold events_of at 1 2. cbn [fst snd app].
  set (tail := (w1 <- get ;; modify (set_fetches (S (fetches w1))) ;; suspend host ;;
                match fetch_outcome host (fetches w1) with
                | FetchRejects e => throw e
                | FetchResponse r => ret r
                end) : M Response).
  assert (Htail : emits no_fetch (response <- tail ;; k response)).
  { apply emits_bind; [|exact Hk]. subst tail.
    repeat emits_step. apply suspend_emits, no_fetch_benign. }
  assert (Hsplit : events_of ((response <- fetch host d (URL_toString (url u0)) ;; k response) w)
                   = EFetch d (URL_toString (url u0))
                     :: events_of ((response <- tail ;; k response) w)).
  { change (fetch host d (URL_toString (url u0)))
      with (bind (emit (EFetch d (URL_toString (url u0)))) (fun _ => tail)).
    apply emit_bind_events. }
  rewrite Hsplit. exists fwd, (events_of ((response <- tail ;; k response) w)).
  split; [reflexivity|]. split; [exact Hfwd|].
  destruct ((response <- tail ;; k response) w) as [[r w'] t] eqn:E.
  exact (Htail _ _ _ _ E).
Qed.

End Token.

Section TokenDownloads.

Variable host : Host.

Lemma downloadWASM_logged config container u0 w :
  registry_url host config = Normal u0 ->
  logged_then_fetched (append "[Runtime] Downloading WASM from ") FetchWasm
    (wasm_url config container u0)
    (events_of (downloadWASM host config sanitizeUrlForLogging container w)).
Proof.
  intros Hreg.
  apply (request_printed_then_fetched host config sanitizeUrlForLogging (append "[Runtime] Downloading WASM from ")
           FetchWasm (wasm_url config container)); [exact Hreg|].
  intros r. pose proof no_fetch_benign as HB.
  repeat emits_step;
    first [apply error_text_emits, HB | apply response_arrayBuffer_emits, HB].
Qed.

Lemma downloadJS_logged config wasmPath imageRef variant u0 w :
  registry_url host config = Normal u0 ->
  logged_then_fetched (append "[Runtime] Downloading JS glue code from ") FetchJS
    (js_url config wasmPath imageRef variant u0)
    (events_of (downloadJS host config sanitizeUrlForLogging wasmPath imageRef variant w)).
Proof.
  intros Hreg.
  apply (request_printed_then_fetched host config sanitizeUrlForLogging
           (append "[Runtime] Downloading JS glue code from ")
           FetchJS (js_url config wasmPath imageRef variant)); [exact Hreg|].
  intros r. pose proof no_fetch_benign as HB.
  repeat emits_step; apply response_text_emits, HB.
Qed.

Lemma downloadFile_printed config logUrl imageRef path variant u0 w :
  registry_url host config = Normal u0 ->
  printed_then_fetched logUrl
    (fun url => "[Runtime] Downloading file " +:+ path +:+ " from " +:+ url)
    FetchFile (file_url config imageRef path variant u0)
    (events_of (downloadFile host config logUrl imageRef path variant w)).
Proof.
  intros Hreg.
  apply (request_printed_then_fetched host config logUrl
           (fun url => "[Runtime] Downloading file " +:+ path +:+ " from " +:+ url)
           FetchFile (file_url config imageRef path variant)); [exact Hreg|].
  intros r. pose proof no_fetch_benign as HB.
  repeat emits_step;
    first [apply error_text_emits, HB | apply response_text_emits, HB].
Qed.

Variables c1 c2 : Config.
Hypothesis Hconfig : same_but_token_config c1 c2.

Lemma buildRegistryUrl_same : buildRegistryUrl host c1 = buildRegistryUrl host c2.
Proof. unfold buildRegistryUrl. destruct Hconfig as [-> _]. reflexivity. Qed.

Lemma downloadWASM_same container :
  same_log (downloadWASM host c1 sanitizeUrlForLogging container)
           (downloadWASM host c2 sanitizeUrlForLogging container).
Proof.
  unfold downloadWASM. rewrite buildRegistryUrl_same.
  apply same_log_bind; [apply same_log_refl|intros u]. cbv zeta.
  assert (Hsame : same_but_token_url (wasm_url c1 container u) (wasm_url c2 container u)).
  { unfold wasm_url. apply url_set_if_same_but_token.
    apply url_set_token_same_but_token; [apply Hconfig|].
    split; [reflexivity|apply same_but_token_refl]. }
  unfold wasm_url in Hsame. rewrite (sanitize_same _ _ Hsame).
  apply same_log_bind; [apply same_log_refl|intros _].
  apply same_log_bind; [apply same_log_fetch|intros r]. apply same_log_refl.
Qed.

Lemma downloadJS_same wasmPath imageRef variant :
  same_log (downloadJS host c1 sanitizeUrlForLogging wasmPath imageRef variant)
           (downloadJS host c2 sanitizeUrlForLogging wasmPath imageRef variant).
Proof.
  unfold downloadJS. rewrite buildRegistryUrl_same.
  apply same_log_bind; [apply same_log_refl|intros u]. cbv zeta.
  assert (Hsame : same_but_token_url (js_url c1 wasmPath imageRef variant u)
                                     (js_url c2 wasmPath imageRef variant u)).
  { unfold js_url. apply url_set_if_same_but_token.
    apply url_set_token_same_but_token; [apply Hconfig|].
    split; [reflexivity|apply same_but_token_refl]. }
  unfold js_url in Hsame. rewrite (sanitize_same _ _ Hsame).
  apply same_log_bind; [apply same_log_refl|intros _].
  apply same_log_bind; [apply same_log_fetch|intros r]. apply same_log_refl.
Qed.

Lemma downloadFile_same imageRef path variant :
  same_log (downloadFile host c1 sanitizeUrlForLogging imageRef path variant)
           (downloadFile host c2 sanitizeUrlForLogging imageRef path variant).
Proof.
  unfold downloadFile. rewrite buildRegistryUrl_same.
  apply same_log_bind; [apply same_log_refl|intros u]. cbv zeta.
  assert (Hsame : same_but_token_url (file_url c1 imageRef path variant u)
                                     (file_url c2 imageRef path variant u)).
  { unfold file_url. apply url_set_if_same_but_token.
    apply url_set_token_same_but_token; [apply Hconfig|].
    split; [reflexivity|apply same_but_token_refl]. }
  unfold file_url in Hsame. rewrite (sanitize_same _ _ Hsame).
  apply same_log_bind; [apply same_log_refl|intros _].
  apply same_log_bind; [apply same_log_fetch|intros r]. apply same_log_refl.
Qed.

Lemma executePod_same podSpec :
  same_log (Runtime.executePod host c1 podSpec) (Runtime.executePod host c2 podSpec).
Proof.
  unfold Runtime.executePod, guarded, Runtime.executePod_try.
  repeat first [ apply downloadWASM_same | apply downloadJS_same | same_log_step ].
Qed.

End TokenDownloads.

Lemma token_in_url k v u :
  k <> "token" ->
  searchParams_get "token" (searchParams (url_set_if k v u)) =
  searchParams_get "token" (searchParams u).
Proof.
  intros Hk. unfold url_set_if. destruct v as [s|]; [|reflexivity].
  destruct (truthy s); [|reflexivity]. cbn. apply get_set_other. congruence.
Qed.

Lemma token_set_in_url tok u :
  truthy tok = true ->
  searchParams_get "token" (searchParams (url_set_if "token" (Some tok) u)) = Some tok.
Proof. intros Ht. unfold url_set_if. rewrite Ht. cbn. apply get_set_same. Qed.

Lemma token_hidden_intro tok url :
  searchParams_get "token" (searchParams url) = Some tok -> token_hidden tok url.
Proof.
  intros H. split; [exact H|].
  destruct (sanitize_hides url (has_of_get _ _ _ H)) as (H1 & _ & H2). split; assumption.
Qed.



Example sanitized_line :
  sanitizeUrlForLogging
    (wasm_url config0 (container_with (Some (wasm_explicit "app.wasm" None)))
       {| href := "https://registry.example.com/proxy"; searchParams := [] |})
  = "https://registry.example.com/proxy?image=ghcr.io%2Fkuack-io%2Fchecker%3A1.2.3&path=app.wasm&token=***".
Proof. reflexivity. Qed.

(** *** Discovery of the module path *)

Lemma yields_bind {A B} (Q : B -> Prop) (m : M A) (f : A -> M B) :
  (forall a, yields Q (f a)) -> yields Q (bind m f).
Proof.
  intros Hf w b w' t H. unfold bind in H.
  destruct (m w) as [[[a|e] w1] t1] eqn:Em; [|discriminate].
  destruct (f a w1) as [[r2 w2] t2] eqn:Ef. inversion H; subst.
  exact (Hf a _ _ _ _ Ef).
Qed.

Lemma yields_ret {A} (Q : A -> Prop) (a : A) : Q a -> yields Q (ret a).
Proof. intros Ha w b w' t H. inversion H; subst. exact Ha. Qed.

Lemma total_bind {A B} (m : M A) (f : A -> M B) :
  total m -> (forall a, total (f a)) -> total (bind m f).
Proof.
  intros Hm Hf w. destruct (Hm w) as [a Ha]. unfold bind, result_of in *.
  destruct (m w) as [[r w1] t1]. cbn in Ha. subst r.
  destruct (Hf a w1) as [b Hb]. unfold result_of in Hb.
  destruct (f a w1) as [[r2 w2] t2]. cbn in *. eauto.
Qed.

Lemma total_ret {A} (a : A) : total (ret a).
Proof. intros w. exists a. reflexivity. Qed.

Lemma bind_events_prefix {A B} (m : M A) (f : A -> M B) w :
  exists more, events_of (bind m f w) = events_of (m w) ++ more.
Proof.
  unfold bind, events_of. destruct (m w) as [[[a|e] w1] t1]; cbn [snd].
  - destruct (f a w1) as [[r w2] t2]. exists t2. reflexivity.
  - exists []. rewrite app_nil_r. reflexivity.
Qed.

Section Discovery.

Variable host : Host.
Variable config : Config.

Lemma console_total lv line : total (console host lv line).
Proof.
  intros w. destruct (console_runs host lv line w) as (t & Ht & _).
  exists tt. rewrite Ht. reflexivity.
Qed.

(** The block always starts with the discovery, whatever the container
    says about its path. *)
Lemma discovery_always_fetches container u0 w :
  registry_url host config = Normal u0 ->
  In (EFetch FetchFile (URL_toString (manifest_url config container u0)))
     (events_of (RuntimeDiscovery.discoverWasmPath host config container w)).
Proof.
  intros Hreg. unfold RuntimeDiscovery.discoverWasmPath.
  match goal with |- context [try_catch ?m ?h] => set (body := m); set (handler := h) end.
  assert (Hbody : In (EFetch FetchFile (URL_toString (manifest_url config container u0)))
                     (events_of (body w))).
  { subst body.
    match goal with |- context [console host LevelLog ?line] =>
      destruct (console_runs host LevelLog line w) as (tc & Htc & _)
    end.
    rewrite (bind_normal _ _ _ _ _ _ Htc). unfold events_of at 1. cbn [snd].
    apply in_or_app. right.
    pose proof (downloadFile_printed host config URL_toString (imageRef_of container)
                  "pkg/package.json" (wasm_field wasm_variant container) u0 w Hreg)
      as (fwd & rest & Hev & _).
    match goal with |- In _ (events_of (bind ?m ?f w)) =>
      destruct (bind_events_prefix m f w) as [more ->]
    end.
    apply in_or_app. left. rewrite Hev. right. apply in_or_app. right. left. reflexivity. }
  unfold try_catch, events_of in *.
  destruct (body w) as [[[c|e] w1] t1]; cbn [snd] in *; [exact Hbody|].
  destruct (handler e w1) as [[r w2] t2]. cbn [snd]. apply in_or_app. left. exact Hbody.
Qed.

(** With an explicit path, the block returns the container as it is or
    with the discovered path, never with the fallback path. *)
Lemma discovery_explicit container w :
  truthy_opt (wasm_field wasm_path container) = true ->
  result_of (RuntimeDiscovery.discoverWasmPath host config container w) = Normal container \/
  exists main, truthy main = true /\
    result_of (RuntimeDiscovery.discoverWasmPath host config container w)
    = Normal (set_wasm_path (discovered_path main) container).
Proof.
  intros Hpath. unfold RuntimeDiscovery.discoverWasmPath. rewrite Hpath. cbn [negb].
  match goal with |- context [try_catch ?m ?h] => set (body := m); set (handler := h) end.
  assert (Hbody : yields (fun c => c = container \/
                            exists main, truthy main = true /\
                              c = set_wasm_path (discovered_path main) container) body).
  { subst body. apply yields_bind; intros _. apply yields_bind; intros s.
    apply yields_bind; intros main.
    destruct main as [m|]; cbn [truthy_opt default].
    - destruct (truthy m) eqn:Hm.
      + apply yields_bind; intros _. apply yields_ret. right. exists m. auto.
      + apply yields_ret. left. reflexivity.
    - apply yields_ret. left. reflexivity. }
  unfold try_catch, result_of.
  destruct (body w) as [[[c|e] w1] t1] eqn:Eb; cbn [fst].
  - destruct (Hbody _ _ _ _ Eb) as [-> | (m & Hm & ->)]; [left; reflexivity|].
    right. exists m. auto.
  - subst handler. cbv beta.
    match goal with |- context [console host LevelWarn ?line] =>
      destruct (console_runs host LevelWarn line w1) as (tc & Htc & _)
    end.
    unfold bind. rewrite Htc. cbn. left. reflexivity.
Qed.

Lemma suspend_returns w :
  exists w' t, suspend host w = (Normal tt, w', t) /\ fetches w' = fetches w.
Proof.
  unfold suspend, bind, get, modify.
  set (w1 := set_suspensions (S (suspensions w)) w).
  assert (H : fetches w1 = fetches w) by reflexivity. clearbody w1. revert w1 H.
  induction (interleaved host (suspensions w)) as [|[ns name] l IH]; intros w1 H; cbn [for_each].
  - cbn. eauto.
  - assert (Hd : exists w2 t2, deletePod host ns name w1 = (Normal tt, w2, t2)
                               /\ fetches w2 = fetches w1).
    { unfold deletePod, bind, get. cbn [fst snd].
      destruct (runningPods w1 !! podKey_of ns name); [|cbn; eauto].
      match goal with |- context [console host LevelLog ?line] =>
        destruct (console_runs host LevelLog line w1) as (tc & Htc & _)
      end.
      rewrite Htc. unfold modify. cbn. eauto. }
    destruct Hd as (w2 & t2 & Hd & Hf).
    destruct (IH w2) as (w' & t & Hrun & Hf'); [congruence|].
    unfold bind in *. cbn [fst snd] in *. rewrite Hd.
    destruct (for_each _ l w2) as [[r w3] t3]. inversion Hrun; subst.
    rewrite app_nil_l in *. eexists _, _. split; [reflexivity|]. exact Hf'.
Qed.

Lemma fetch_returns d url r w :
  fetch_outcome host (fetches w) = FetchResponse r ->
  exists w' t, fetch host d url w = (Normal r, w', t).
Proof.
  intros Hfetch.
  destruct (suspend_returns (set_fetches (S (fetches w)) w)) as (w2 & t2 & Hs2 & _).
  unfold fetch, bind, emit, get, modify. cbn [fst snd]. rewrite Hs2, Hfetch. eauto.
Qed.

(** The manifest arrives. *)
Lemma downloadFile_returns logUrl imageRef path variant u0 r text w :
  registry_url host config = Normal u0 ->
  fetch_outcome host (fetches w) = FetchResponse r ->
  resp_ok r = true -> resp_text r = Normal text ->
  result_of (downloadFile host config logUrl imageRef path variant w) = Normal text.
Proof.
  intros Hreg Hfetch Hok Htext. unfold downloadFile.
  assert (Hb : buildRegistryUrl host config w = (Normal u0, w, [])).
  { rewrite buildRegistryUrl_pure, Hreg. reflexivity. }
  rewrite (bind_normal _ _ _ _ _ _ Hb). unfold result_of at 1. cbn [fst].
  match goal with |- context [console host LevelLog ?line] =>
    destruct (console_runs host LevelLog line w) as (tc & Htc & _)
  end.
  rewrite (bind_normal _ _ _ _ _ _ Htc). unfold result_of at 1. cbn [fst].
  match goal with |- context [fetch host FetchFile ?url] =>
    destruct (fetch_returns FetchFile url r w Hfetch) as (w2 & t2 & Hf)
  end.
  rewrite (bind_normal _ _ _ _ _ _ Hf). unfold result_of at 1. cbn [fst].
  rewrite Hok. cbn [negb]. unfold response_text.
  destruct (suspend_returns w2) as (w3 & t3 & Hs3 & _).
  rewrite (bind_normal _ _ _ _ _ _ Hs3). unfold result_of, lift. cbn [fst].
  exact Htext.
Qed.

(** A successful discovery overwrites the path, explicit or not. *)
Lemma discovery_overrides container u0 r text main w :
  registry_url host config = Normal u0 ->
  fetch_outcome host (fetches w) = FetchResponse r ->
  resp_ok r = true -> resp_text r = Normal text ->
  JSON_parse_main host text = Normal (Some main) -> truthy main = true ->
  result_of (RuntimeDiscovery.discoverWasmPath host config container w)
  = Normal (set_wasm_path (discovered_path main) container).
Proof.
  intros Hreg Hfetch Hok Htext Hjson Hmain.
  unfold RuntimeDiscovery.discoverWasmPath.
  match goal with |- context [try_catch ?m ?h] => set (body := m); set (handler := h) end.
  assert (Hbody : result_of (body w) = Normal (set_wasm_path (discovered_path main) container)).
  { subst body.
    match goal with |- context [console host LevelLog ?line] =>
      destruct (console_runs host LevelLog line w) as (tc & Htc & _)
    end.
    rewrite (bind_normal _ _ _ _ _ _ Htc). unfold result_of at 1. cbn [fst].
    pose proof (downloadFile_returns URL_toString (imageRef_of container) "pkg/package.json"
                  (wasm_field wasm_variant container) u0 r text w Hreg Hfetch Hok Htext) as Hd.
    unfold result_of in Hd.
    match type of Hd with fst (fst (?m w)) = _ => destruct (m w) as [[rd wd] td] eqn:Ed end.
    cbn [fst] in Hd. subst rd.
    rewrite (bind_normal _ _ _ _ _ _ Ed). unfold result_of at 1. cbn [fst].
    unfold bind at 1, lift. rewrite Hjson. cbn [truthy_opt default]. rewrite Hmain.
    match goal with |- context [console host LevelLog ?line] =>
      destruct (console_runs host LevelLog line wd) as (tc2 & Htc2 & _)
    end.
    unfold bind. rewrite Htc2. reflexivity. }
  unfold try_catch, result_of in *.
  destruct (body w) as [[[c|e] w1] t1]; cbn [fst] in *; [exact Hbody|discriminate].
Qed.

End Discovery.

Section DiscoveryFallback.

Variable host : Host.
Variable config : Config.

Lemma fetch_rejects d url e w :
  fetch_outcome host (fetches w) = FetchRejects e ->
  exists w' t, fetch host d url w = (Throw e, w', t).
Proof.
  intros Hfetch.
  destruct (suspend_returns host (set_fetches (S (fetches w)) w)) as (w2 & t2 & Hs2 & _).
  unfold fetch, bind, emit, get, modify. cbn [fst snd]. rewrite Hs2, Hfetch.
  unfold throw. eauto.
Qed.

Lemma downloadFile_throws logUrl imageRef path variant u0 e w :
  registry_url host config = Normal u0 ->
  fetch_outcome host (fetches w) = FetchRejects e ->
  exists w' t, downloadFile host config logUrl imageRef path variant w = (Throw e, w', t).
Proof.
  intros Hreg Hfetch. unfold downloadFile.
  assert (Hb : buildRegistryUrl host config w = (Normal u0, w, [])).
  { rewrite buildRegistryUrl_pure, Hreg. reflexivity. }
  rewrite (bind_normal _ _ _ _ _ _ Hb).
  match goal with |- context [console host LevelLog ?line] =>
    destruct (console_runs host LevelLog line w) as (tc & Htc & _)
  end.
  rewrite (bind_normal _ _ _ _ _ _ Htc).
  match goal with |- context [fetch host FetchFile ?url] =>
    destruct (fetch_rejects FetchFile url e w Hfetch) as (w2 & t2 & Hf)
  end.
  rewrite (bind_throw _ _ _ _ _ _ Hf).
  unfold result_of, world_of, events_of. cbn [fst snd]. eauto.
Qed.

(** Without a path, a failed discovery falls back on the image name. *)
Lemma discovery_fallback container u0 e w :
  registry_url host config = Normal u0 ->
  fetch_outcome host (fetches w) = FetchRejects e ->
  truthy_opt (wasm_field wasm_path container) = false ->
  result_of (RuntimeDiscovery.discoverWasmPath host config container w)
  = Normal match RuntimeDiscovery.match_image_name (imageRef_of container) with
           | Some name => set_wasm_path (fallback_path name) container
           | None => container
           end.
Proof.
  intros Hreg Hfetch Hpath. unfold RuntimeDiscovery.discoverWasmPath. rewrite Hpath. cbn [negb].
  match goal with |- context [try_catch ?m ?h] => set (body := m); set (handler := h) end.
  assert (Hbody : exists w1 t1, body w = (Throw e, w1, t1)).
  { subst body.
    match goal with |- context [console host LevelLog ?line] =>
      destruct (console_runs host LevelLog line w) as (tc & Htc & _)
    end.
    rewrite (bind_normal _ _ _ _ _ _ Htc).
    destruct (downloadFile_throws URL_toString (imageRef_of container) "pkg/package.json"
                (wasm_field wasm_variant container) u0 e w Hreg Hfetch) as (w2 & t2 & Hd).
    rewrite (bind_throw _ _ _ _ _ _ Hd).
    unfold result_of, world_of, events_of. cbn [fst snd]. eauto. }
  destruct Hbody as (w1 & t1 & Hbody).
  unfold try_catch, result_of. rewrite Hbody. subst handler. cbv beta.
  match goal with |- context [console host LevelWarn ?line] =>
    destruct (console_runs host LevelWarn line w1) as (tc & Htc & _)
  end.
  unfold bind at 1. rewrite Htc.
  destruct (RuntimeDiscovery.match_image_name (imageRef_of container)) as [name|];
    [|reflexivity].
  cbv zeta.
  match goal with |- context [console host LevelLog ?line] =>
    destruct (console_runs host LevelLog line w1) as (tc3 & Htc3 & _)
  end.
  unfold bind. rewrite Htc3. reflexivity.
Qed.

End DiscoveryFallback.

Lemma no_manifest_benign : benign no_manifest.
Proof. split; intros; exact I. Qed.

Lemma executePod_no_manifest host config podSpec :
  emits no_manifest (Runtime.executePod host config podSpec).
Proof.
  pose proof no_manifest_benign as HB. unfold Runtime.executePod.
  apply emits_bind; [apply announce_emits; [exact HB|intros; exact I]|intros _].
  apply guarded_emits; [exact HB | intros; exact I |].
  unfold Runtime.executePod_try.
  repeat emits_step;
    first [ apply console_emits, HB
          | apply downloadWASM_emits; [exact HB | intros; exact I]
          | apply downloadJS_emits; [exact HB | intros; exact I]
          | apply call_onStatus_emits; exact I
          | apply register_controller_emits
          | apply executeWASM_emits, HB
          | apply executeWASI_emits, HB ].
Qed.

Lemma path_in_url config container path u0 :
  wasm_field wasm_path container = Some path -> truthy path = true ->
  searchParams_get "path" (searchParams (wasm_url config container u0)) = Some path.
Proof.
  intros Hp Ht. unfold wasm_url. rewrite Hp.
  assert (Hother : forall k v u, k <> "path" ->
            searchParams_get "path" (searchParams (url_set_if k v u)) =
            searchParams_get "path" (searchParams u)).
  { intros k v u Hk. unfold url_set_if. destruct v as [s|]; [|reflexivity].
    destruct (truthy s); [|reflexivity]. cbn. apply get_set_other. congruence. }
  rewrite !Hother by discriminate. unfold url_set_if. rewrite Ht. cbn. apply get_set_same.
Qed.

(** C2, as claimed, fails on the engine that has the discovery: a
    container with the explicit path "custom/app_bg.wasm" still has its
    package.json fetched, and the module is then fetched from the
    discovered path. *)
Lemma explicit_path_is_rediscovered :
  let container := container_with (Some (wasm_explicit "custom/app_bg.wasm" None)) in
  let run := RuntimeDiscovery.executePod (host_exit 0) config0
               (pod_with (Some (wasm_explicit "custom/app_bg.wasm" None))) world0 in
  In (EFetch FetchFile
        "https://registry.example.com/proxy?image=ghcr.io%2Fkuack-io%2Fchecker%3A1.2.3&path=pkg%2Fpackage.json&token=s3cr3t")
     (events_of run) /\
  In (EFetch FetchWasm
        "https://registry.example.com/proxy?image=ghcr.io%2Fkuack-io%2Fchecker%3A1.2.3&path=pkg%2Fmod_bg.wasm&token=s3cr3t")
     (events_of run) /\
  result_of (RuntimeDiscovery.discoverWasmPath (host_exit 0) config0 container world0)
  = Normal (set_wasm_path "pkg/mod_bg.wasm" container).
Proof.
  vm_compute. split; [|split];
    [ repeat (first [left; reflexivity | right])
    | repeat (first [left; reflexivity | right])
    | reflexivity ].
Qed.

(** C2, amended.  In the engine with the discovery block
    (src/runtime.ts): the package.json of the image is fetched for every
    container, with or without an explicit path; when the manifest
    arrives and names a main script, the path becomes the discovered one,
    also over an explicit path; only the image-name fallback is reserved
    to containers without an explicit path: with one, the block leaves the
    container as it is or with the discovered path, and without one a
    failed discovery yields the fallback path.  In the engine that checks
    for an explicit configuration (src/runtime.test.ts): [executePod]
    never fetches a manifest, and the module is requested under the
    explicit path. *)
Theorem discovery_policy (host : Host) (config : Config) (container : ContainerSpec)
    (w : World) :
  let run := RuntimeDiscovery.discoverWasmPath host config container w in
  (forall u0, registry_url host config = Normal u0 ->
     In (EFetch FetchFile (URL_toString (manifest_url config container u0))) (events_of run)) /\
  (forall u0 r text main,
     registry_url host config = Normal u0 ->
     fetch_outcome host (fetches w) = FetchResponse r ->
     resp_ok r = true -> resp_text r = Normal text ->
     JSON_parse_main host text = Normal (Some main) -> truthy main = true ->
     result_of run = Normal (set_wasm_path (discovered_path main) container)) /\
  (truthy_opt (wasm_field wasm_path container) = true ->
     result_of run = Normal container \/
     exists main, truthy main = true /\
                  result_of run = Normal (set_wasm_path (discovered_path main) container)) /\
  (forall u0 e,
     registry_url host config = Normal u0 ->
     fetch_outcome host (fetches w) = FetchRejects e ->
     truthy_opt (wasm_field wasm_path container) = false ->
     result_of run
     = Normal match RuntimeDiscovery.match_image_name (imageRef_of container) with
              | Some name => set_wasm_path (fallback_path name) container
              | None => container
              end) /\
  (forall podSpec, Forall no_manifest (events_of (Runtime.executePod host config podSpec w))) /\
  (forall path u0,
     wasm_field wasm_path container = Some path -> truthy path = true ->
     searchParams_get "path" (searchParams (wasm_url config container u0)) = Some path).
Proof.
  intros run. subst run.
  split; [intros; apply discovery_always_fetches; assumption|].
  split; [intros; eapply discovery_overrides; eassumption|].
  split; [apply discovery_explicit|].
  split; [intros; eapply discovery_fallback; eassumption|].
  split.
  - intros podSpec.
    destruct (Runtime.executePod host config podSpec w) as [[r w'] t] eqn:E.
    exact (executePod_no_manifest host config podSpec _ _ _ _ E).
  - intros. apply path_in_url; assumption.
Qed.

Lemma discovery_policy_witness :
  result_of (RuntimeDiscovery.discoverWasmPath (host_exit 0) config0
               (container_with (Some (wasm_explicit "custom/app_bg.wasm" None))) world0)
  = Normal (set_wasm_path "pkg/mod_bg.wasm"
              (container_with (Some (wasm_explicit "custom/app_bg.wasm" None)))) /\
  result_of (RuntimeDiscovery.discoverWasmPath host_offline config0
               (image_only "ghcr.io/org/super-checker:1.2.3") world0)
  = Normal (set_wasm_path "pkg/super_checker_bg.wasm"
              (image_only "ghcr.io/org/super-checker:1.2.3")) /\
  (result_of (RuntimeDiscovery.discoverWasmPath host_offline config0
                (container_with (Some (wasm_explicit "custom/app_bg.wasm" None))) world0)
   = Normal (container_with (Some (wasm_explicit "custom/app_bg.wasm" None))) \/
   exists main, truthy main = true /\
     result_of (RuntimeDiscovery.discoverWasmPath host_offline config0
                  (container_with (Some (wasm_explicit "custom/app_bg.wasm" None))) world0)
     = Normal (set_wasm_path (discovered_path main)
                 (container_with (Some (wasm_explicit "custom/app_bg.wasm" None))))).
Proof.
  destruct (discovery_policy (host_exit 0) config0
              (container_with (Some (wasm_explicit "custom/app_bg.wasm" None))) world0)
    as (_ & H2 & _).
  destruct (discovery_policy host_offline config0
              (image_only "ghcr.io/org/super-checker:1.2.3") world0)
    as (_ & _ & _ & H4 & _).
  destruct (discovery_policy host_offline config0
              (container_with (Some (wasm_explicit "custom/app_bg.wasm" None))) world0)
    as (_ & _ & H3 & _).
  split; [|split].
  - apply (H2 {| href := "https://registry.example.com/proxy"; searchParams := [] |}
              (ok_response "asm") "asm" "mod.js"); reflexivity.
  - apply (H4 {| href := "https://registry.example.com/proxy"; searchParams := [] |}
              (ThrownError "TypeError" "Failed to fetch")); reflexivity.
  - apply H3. reflexivity.
Defined.

End RuntimeSpec.
